(** * ai-smart-plant-pot: the classifier's confidence post-processing and the
      serial exchange with the Arduino

    Shallow embedding of [predict_plant_tflite.py] (the command-line
    classifier) and of [Raspberry Pi/plant_bot.py] (the Telegram bot), and the
    properties of the specification that can be stated over it.

    Numbers.  The arrays of the source hold IEEE floats.  The embedding
    computes over the real numbers: every arithmetic operation is exact, and a
    step on which numpy would leave an infinity or a nan in the array
    (division by zero, logarithm of a non-positive number) ends the
    computation with [NonFinite].  Rounding, overflow and underflow are outside
    the model.

    Text.  A Python [str] is a list of code points, a [bytes] object a list of
    [Byte.byte]. *)

From Stdlib Require Import String Ascii Strings.Byte.
From Stdlib Require Import Reals Lra Lia Arith NArith Bool List.
From Stdlib Require Import Sorting.Sorted Permutation.
Import ListNotations.

(** ** Results of fallible steps *)

Inductive exn : Type :=
| UnsupportedDtype      (* ValueError("Unsupported input dtype: ...") *)
| TensorTypeMismatch    (* ValueError of Interpreter.set_tensor: value type *)
| TensorShapeMismatch   (* ValueError of Interpreter.set_tensor: dimensions *)
| IndexError            (* an index out of range *)
| EmptySequence         (* ValueError of np.argmax on an empty array *)
| UnicodeDecodeError    (* bytes.decode with errors="strict" *)
| NonFinite.            (* not an exception: inf or nan entered the array *)

Inductive result (A : Type) : Type :=
| Ok (a : A)
| Raise (e : exn).

Arguments Ok {A} a.
Arguments Raise {A} e.

Definition bind {A B : Type} (r : result A) (k : A -> result B) : result B :=
  match r with
  | Ok a => k a
  | Raise e => Raise e
  end.

Notation "x <- r ;; k" := (bind r (fun x => k))
  (at level 61, r at next level, right associativity).

Fixpoint mapM {A B : Type} (f : A -> result B) (l : list A) : result (list B) :=
  match l with
  | [] => Ok []
  | a :: l' => b <- f a ;; bs <- mapM f l' ;; Ok (b :: bs)
  end.

(** ** Python text and bytes *)

Module Py.

Definition str := list N.

(** A string literal of the source whose characters are all ASCII. *)
Definition lit (s : string) : str := map N_of_ascii (list_ascii_of_string s).

(** [str.lower] on the letters A-Z.  Python lowers the cased letters outside
    ASCII too; those code points are left as they are here. *)
Definition lower_char (c : N) : N :=
  if ((65 <=? c) && (c <=? 90))%N then (c + 32)%N else c.

Definition lower (s : str) : str := map lower_char s.

Fixpoint startswith (s prefix : str) {struct prefix} : bool :=
  match prefix, s with
  | [], _ => true
  | _ :: _, [] => false
  | p :: prefix', c :: s' => (p =? c)%N && startswith s' prefix'
  end.

(** [needle in hay] *)
Fixpoint contains (needle hay : str) : bool :=
  startswith hay needle ||
  match hay with
  | [] => false
  | _ :: hay' => contains needle hay'
  end.

(** [str.isspace] for one code point (the table of
    [_PyUnicode_IsWhitespace]). *)
Definition isspace (c : N) : bool :=
  (((0x09 <=? c) && (c <=? 0x0D)) || ((0x1C <=? c) && (c <=? 0x20))
   || (c =? 0x85) || (c =? 0xA0) || (c =? 0x1680)
   || ((0x2000 <=? c) && (c <=? 0x200A))
   || (c =? 0x2028) || (c =? 0x2029) || (c =? 0x202F) || (c =? 0x205F)
   || (c =? 0x3000))%N.

Fixpoint lstrip (s : str) : str :=
  match s with
  | [] => []
  | c :: s' => if isspace c then lstrip s' else s
  end.

Definition rstrip (s : str) : str := rev (lstrip (rev s)).

Definition strip (s : str) : str := rstrip (lstrip s).

(** *** [bytes.decode(errors=...)], UTF-8 *)

Inductive errors : Type := strict | ignore | replace.

(** What the decoder finds at the head of the input: a code point encoded on
    [width] bytes, or an error range of [width] bytes ("invalid start byte",
    "invalid continuation byte", "unexpected end of data"). *)
Inductive scan : Type :=
| Char (c : N) (width : nat)
| Invalid (width : nat).

Definition is_continuation (ch : N) : bool := ((0x80 <=? ch) && (ch <? 0xC0))%N.

Definition utf8_scan (bs : list N) : scan :=
  match bs with
  | [] => Invalid 0
  | ch :: r1 =>
    if (ch <? 0x80)%N then Char ch 1
    else if (ch <? 0xC2)%N then Invalid 1
    else if (ch <? 0xE0)%N then
      match r1 with
      | [] => Invalid 1
      | ch2 :: _ =>
        if is_continuation ch2
        then Char (ch * 64 + ch2 - (0xC0 * 64 + 0x80))%N 2
        else Invalid 1
      end
    else if (ch <? 0xF0)%N then
      match r1 with
      | [] => Invalid 1
      | ch2 :: r2 =>
        if negb (is_continuation ch2)
           || (if (ch2 <? 0xA0)%N then (ch =? 0xE0)%N else (ch =? 0xED)%N)
        then Invalid 1
        else
          match r2 with
          | [] => Invalid 2
          | ch3 :: _ =>
            if is_continuation ch3
            then Char (ch * 4096 + ch2 * 64 + ch3
                       - (0xE0 * 4096 + 0x80 * 64 + 0x80))%N 3
            else Invalid 2
          end
      end
    else if (ch <? 0xF5)%N then
      match r1 with
      | [] => Invalid 1
      | ch2 :: r2 =>
        if negb (is_continuation ch2)
           || (if (ch2 <? 0x90)%N then (ch =? 0xF0)%N else (ch =? 0xF4)%N)
        then Invalid 1
        else
          match r2 with
          | [] => Invalid 2
          | ch3 :: r3 =>
            if negb (is_continuation ch3) then Invalid 2
            else
              match r3 with
              | [] => Invalid 3
              | ch4 :: _ =>
                if is_continuation ch4
                then Char (ch * 262144 + ch2 * 4096 + ch3 * 64 + ch4
                           - (0xF0 * 262144 + 0x80 * 4096 + 0x80 * 64 + 0x80))%N 4
                else Invalid 3
              end
          end
      end
    else Invalid 1
  end.

(** The decoding loop.  [skip] counts the bytes of the current sequence or
    error range that are still to be passed over. *)
Fixpoint decode_from (h : errors) (skip : nat) (bs : list N) : result str :=
  match bs with
  | [] => Ok []
  | _ :: rest =>
    match skip with
    | S k => decode_from h k rest
    | O =>
      match utf8_scan bs with
      | Char c w => t <- decode_from h (pred w) rest ;; Ok (c :: t)
      | Invalid w =>
        match h with
        | strict => Raise UnicodeDecodeError
        | ignore => decode_from h (pred w) rest
        | replace => t <- decode_from h (pred w) rest ;; Ok (0xFFFD%N :: t)
        end
      end
    end
  end.

Definition decode (h : errors) (bs : list byte) : result str :=
  decode_from h 0 (map Byte.to_N bs).

End Py.

(** ** numpy on one-dimensional arrays *)

Module NP.

Local Open Scope R_scope.

Definition Rltb (x y : R) : bool := if Rlt_dec x y then true else false.

(** [np.sum] *)
Definition sum (v : list R) : R := fold_right Rplus 0 v.

(** [np.log] of one entry: numpy returns -inf at 0 and nan below. *)
Definition log (x : R) : result R :=
  if Rlt_dec 0 x then Ok (ln x) else Raise NonFinite.

(** [x / y] on floats: numpy returns inf or nan when [y] is 0. *)
Definition div (x y : R) : result R :=
  if Req_dec_T y 0 then Raise NonFinite else Ok (x / y).

(** [v / s], an array divided by a scalar *)
Definition vdiv (v : list R) (s : R) : result (list R) :=
  mapM (fun x => div x s) v.

(** [v[i]] *)
Definition get (v : list R) (i : nat) : R := nth i v 0.

(** [np.argsort(v)], ascending.  numpy's default kind sorts an array of at
    most 16 entries by insertion, an entry moving left past the entries that
    are strictly greater; that is the sort modelled here, at every length
    (on a longer array numpy partitions first, and the order it leaves among
    equal entries is not specified). *)
Fixpoint insert (v : list R) (i : nat) (sorted : list nat) : list nat :=
  match sorted with
  | [] => [i]
  | j :: sorted' =>
    if Rltb (get v i) (get v j) then i :: sorted else j :: insert v i sorted'
  end.

Definition argsort (v : list R) : list nat :=
  fold_left (fun sorted i => insert v i sorted) (seq 0 (length v)) [].

(** [l[-k:]] for [k > 0] *)
Definition last_k {A : Type} (k : nat) (l : list A) : list A :=
  skipn (length l - k) l.

(** [np.argsort(v)[-k:][::-1]] *)
Definition top_k (k : nat) (v : list R) : list nat :=
  rev (last_k k (argsort v)).

(** [np.argmax(v)]: the first index of the greatest entry. *)
Fixpoint argmax_from (v : list R) (i best : nat) (best_val : R) : nat :=
  match v with
  | [] => best
  | x :: v' =>
    if Rltb best_val x then argmax_from v' (S i) i x
    else argmax_from v' (S i) best best_val
  end.

Definition argmax (v : list R) : result nat :=
  match v with
  | [] => Raise EmptySequence
  | x :: v' => Ok (argmax_from v' 1 0 x)
  end.

(** [v[i] = x] *)
Fixpoint set (v : list R) (i : nat) (x : R) : list R :=
  match v, i with
  | [], _ => []
  | _ :: v', O => x :: v'
  | y :: v', S i' => y :: set v' i' x
  end.

End NP.

(** ** Pillow images, pixel arrays and the TFLite interpreter *)

Inductive dtype : Type :=
| uint8 | int8 | int16 | int32 | float16 | float32 | float64.

Definition dtype_eq_dec (a b : dtype) : {a = b} + {a <> b}.
Proof. decide equality. Defined.

(** A decoded RGB raster: [pixels] holds three bytes per pixel, row by row. *)
Record Image : Type := mkImage {
  width : nat;
  height : nat;
  pixels : list N
}.

Record ndarray : Type := mkArray {
  shape : list nat;
  dt : dtype;
  data : list R
}.

(** What the libraries compute on pixel values, left open: the filter of
    [Image.resize], [ImageEnhance.Brightness.enhance], and the entry-wise
    scaling of [mobilenet_v3.preprocess_input]. *)
Class Externals : Type := {
  resample : Image -> nat -> nat -> list N;
  brightness : list N -> R -> list N;
  keras_scale : R -> R
}.

Section Imaging.

Context {ext : Externals}.

(** [img.resize((w, h))] *)
Definition resize (img : Image) (w h : nat) : Image :=
  mkImage w h (resample img w h).

(** [ImageEnhance.Brightness(img).enhance(factor)] *)
Definition enhance (img : Image) (factor : R) : Image :=
  mkImage (width img) (height img) (brightness (pixels img) factor).

(** [np.array(img)]: height x width x 3, uint8 *)
Definition np_array (img : Image) : ndarray :=
  mkArray [height img; width img; 3%nat] uint8
          (map (fun p => IZR (Z.of_N p)) (pixels img)).

(** [a.astype(t)], used on pixel arrays only, whose entries every dtype of
    the source holds exactly. *)
Definition astype (t : dtype) (a : ndarray) : ndarray :=
  mkArray (shape a) t (data a).

(** [np.expand_dims(a, 0)] *)
Definition expand_dims (a : ndarray) : ndarray :=
  mkArray (1%nat :: shape a) (dt a) (data a).

Definition preprocess_input (a : ndarray) : ndarray :=
  mkArray (shape a) (dt a) (map keras_scale (data a)).

End Imaging.

(** An instance to evaluate examples with: nearest-neighbour resampling, no
    change of brightness, no scaling.  No property depends on it. *)
Definition nearest_pixel (img : Image) (w h x y : nat) : list N :=
  let k := 3 * ((y * height img / h) * width img + x * width img / w) in
  [nth k (pixels img) 0%N; nth (k + 1) (pixels img) 0%N;
   nth (k + 2) (pixels img) 0%N].

Definition nearest_neighbour : Externals := {|
  resample := fun img w h =>
    flat_map (fun y => flat_map (nearest_pixel img w h y) (seq 0 w)) (seq 0 h);
  brightness := fun px _ => px;
  keras_scale := fun x => x
|}.

(** A loaded model: the details of its input tensor and the network itself,
    as a function from the input data to the first row of the output. *)
Record Interpreter : Type := mkInterpreter {
  input_shape : list nat;
  input_dtype : dtype;
  forward : list R -> list R
}.

(** [interpreter.set_tensor]: the value's type is checked first, then its
    dimensions. *)
Definition set_tensor (m : Interpreter) (x : ndarray) : result unit :=
  if dtype_eq_dec (dt x) (input_dtype m) then
    if list_eq_dec Nat.eq_dec (shape x) (input_shape m) then Ok tt
    else Raise TensorShapeMismatch
  else Raise TensorTypeMismatch.

(** [set_tensor], [invoke], [get_tensor(...)[0]] *)
Definition run (m : Interpreter) (x : ndarray) : result (list R) :=
  _ <- set_tensor m x ;; Ok (forward m (data x)).

(** [(classes[i], output[i])] *)
Definition labelled (classes : list Py.str) (output : list R) (i : nat)
  : result (Py.str * R) :=
  match nth_error classes i with
  | Some cls => Ok (cls, NP.get output i)
  | None => Raise IndexError
  end.

(** The label file: the stripped lines that are not blank. *)
Definition load_labels (lines : list Py.str) : list Py.str :=
  map Py.strip
      (filter (fun ln => match Py.strip ln with [] => false | _ => true end)
              lines).

(** ** predict_plant_tflite.py *)

Module Predict.

Local Open Scope R_scope.

Record args : Type := mkArgs {
  prefer : option Py.str;
  boost : R;
  temp : R;
  brighten : R
}.

Section Preprocess.

Context {ext : Externals}.

(** Lines 34-56: the image is resized to the model's own input size, then
    converted as the input dtype asks. *)
Definition load_input (a : args) (m : Interpreter) (img : Image)
  : result ndarray :=
  match nth_error (input_shape m) 1 with
  | None => Raise IndexError
  | Some IMG_SIZE =>
    let img := resize img IMG_SIZE IMG_SIZE in
    let img := if Req_dec_T (brighten a) 1 then img
               else enhance img (brighten a) in
    let img_np := np_array img in
    match input_dtype m with
    | float32 => Ok (preprocess_input (expand_dims (astype float32 img_np)))
    | uint8 => Ok (expand_dims (astype uint8 img_np))
    | _ => Raise UnsupportedDtype
    end
  end.

End Preprocess.

(** Lines 68-71 *)
Definition temperature_stage (temp : R) (output : list R)
  : result (list R) :=
  if Req_dec_T temp 1 then Ok output
  else
    logits <- mapM (fun x => NP.log (x + 1e-9)) output ;;
    scaled <- mapM (fun l => NP.div l temp) logits ;;
    let exp_logits := map exp scaled in
    NP.vdiv exp_logits (NP.sum exp_logits).

(** Lines 78-80: [for i, cls in enumerate(classes)] *)
Fixpoint boost_loop (prefer_lower : Py.str) (boost : R) (i : nat)
         (classes : list Py.str) (output : list R) : result (list R) :=
  match classes with
  | [] => Ok output
  | cls :: classes' =>
    if Py.contains prefer_lower (Py.lower cls) then
      match nth_error output i with
      | Some x =>
        boost_loop prefer_lower boost (S i) classes'
                   (NP.set output i (x * (1 + boost)))
      | None => Raise IndexError
      end
    else boost_loop prefer_lower boost (S i) classes' output
  end.

(** Lines 76-80: [if args.prefer:] is false for [None] and for the empty
    string. *)
Definition boost_stage (prefer : option Py.str) (boost : R)
           (classes : list Py.str) (output : list R) : result (list R) :=
  match prefer with
  | Some (c :: p) => boost_loop (Py.lower (c :: p)) boost 0 classes output
  | _ => Ok output
  end.

(** Lines 68-82.  The division of line 82 is outside the [if] of line 76:
    it runs whether or not a stage was applied. *)
Definition postprocess (a : args) (classes : list Py.str) (output : list R)
  : result (list R) :=
  output <- temperature_stage (temp a) output ;;
  output <- boost_stage (prefer a) (boost a) classes output ;;
  NP.vdiv output (NP.sum output).

Record report : Type := mkReport {
  top5 : list (Py.str * R);
  best : Py.str * R
}.

(** Lines 87-94 *)
Definition display (classes : list Py.str) (output : list R)
  : result report :=
  top <- mapM (labelled classes output) (NP.top_k 5 output) ;;
  best_idx <- NP.argmax output ;;
  b <- labelled classes output best_idx ;;
  Ok (mkReport top b).

(** Lines 34-63: from the decoded image to the raw output of the model. *)
Definition infer {ext : Externals} (a : args) (m : Interpreter) (img : Image)
  : result (list R) :=
  img_np <- load_input a m img ;;
  run m img_np.

Definition main {ext : Externals} (a : args) (classes : list Py.str)
           (m : Interpreter) (img : Image) : result report :=
  output <- infer a m img ;;
  output <- postprocess a classes output ;;
  display classes output.

End Predict.

(** ** Raspberry Pi/plant_bot.py *)

Module PlantBot.

Definition IMG_SIZE : nat := 224.

(** [classify_image], from the decoded photo on.  Lines 84-99: the tensor
    handed to the interpreter. *)
Definition input_tensor {ext : Externals} (m : Interpreter) (img : Image)
  : ndarray :=
  let img := resize img IMG_SIZE IMG_SIZE in
  let arr := np_array img in
  if dtype_eq_dec (input_dtype m) uint8
  then expand_dims (astype uint8 arr)
  else preprocess_input (expand_dims (astype float32 arr)).

(** Lines 84-103 *)
Definition infer {ext : Externals} (m : Interpreter) (img : Image)
  : result (list R) :=
  run m (input_tensor m img).

Definition classify_image {ext : Externals} (classes : list Py.str)
           (m : Interpreter) (img : Image) : result (list (Py.str * R)) :=
  out <- infer m img ;;
  mapM (labelled classes out) (NP.top_k 3 out).

(** *** The serial port *)

Record Serial : Type := mkSerial {
  is_open : bool;
  in_buffer : list byte;          (* received, not yet read *)
  written : list (list byte)      (* what was sent, latest first *)
}.

Definition reset_input_buffer (s : Serial) : Serial :=
  mkSerial (is_open s) [] (written s).

Definition write (s : Serial) (line : list byte) : Serial :=
  mkSerial (is_open s) (in_buffer s) (line :: written s).

(** The bytes the Arduino sends while the handler sleeps. *)
Definition receive (s : Serial) (arrived : list byte) : Serial :=
  mkSerial (is_open s) (in_buffer s ++ arrived) (written s).

Definition read_all (s : Serial) : list byte * Serial :=
  (in_buffer s, mkSerial (is_open s) [] (written s)).

Definition bytes_of (s : string) : list byte := list_byte_of_string s.

(** *** Messages of the chat *)

Definition NOT_CONNECTED : Py.str :=
  [0x26A0; 0xFE0F]%N ++ Py.lit " Arduino not connected.".
Definition REQUESTING : Py.str :=
  [0x1F4DF]%N ++ Py.lit " Requesting plant status...".
Definition NO_RESPONSE : Py.str :=
  [0x26A0; 0xFE0F]%N ++ Py.lit " No response from Arduino.".
Definition WATERING_STARTED : Py.str :=
  [0x1F4A7]%N ++ Py.lit " Watering started...".
Definition WATERING_COMPLETE : Py.str :=
  [0x2705]%N ++ Py.lit " Watering complete!".
Definition DONE_NO_RESPONSE : Py.str :=
  [0x2705]%N ++ Py.lit " Done (no serial response).".

Definition ACK : Py.str := Py.lit "ACK:PUMP_DONE".

(** [ser.read_all().decode(errors="ignore").strip()] on the bytes read *)
Definition reply_text (raw : list byte) : result Py.str :=
  t <- Py.decode Py.ignore raw ;; Ok (Py.strip t).

(** The three branches of [water] on the reply, lines 182-187. *)
Inductive CommandOutcome : Type :=
| Acknowledged
| UnrecognizedReply (text : Py.str)
| Silence.

Definition classify (reply : Py.str) : CommandOutcome :=
  if Py.contains ACK reply then Acknowledged
  else
    match reply with
    | _ :: _ => UnrecognizedReply reply
    | [] => Silence
    end.

Definition water_message (o : CommandOutcome) : Py.str :=
  match o with
  | Acknowledged => WATERING_COMPLETE
  | UnrecognizedReply reply => [0x1F4DF; 0x20]%N ++ reply
  | Silence => DONE_NO_RESPONSE
  end.

(** [water]: the messages sent to the chat, in order, and the port after. *)
Definition water (ser : option Serial) (arrived : list byte)
  : result (list Py.str * option Serial) :=
  match ser with
  | None => Ok ([NOT_CONNECTED], ser)
  | Some s =>
    if negb (is_open s) then Ok ([NOT_CONNECTED], ser)
    else
      let s := write (reset_input_buffer s) (bytes_of "PUMP" ++ [x0a]) in
      let (raw, s) := read_all (receive s arrived) in
      reply <- reply_text raw ;;
      Ok ([WATERING_STARTED; water_message (classify reply)], Some s)
  end.

(** Lines 162-165 of [status]. *)
Definition status_message (reply : Py.str) : Py.str :=
  let reply := match reply with [] => NO_RESPONSE | _ :: _ => reply end in
  [0x1F4CA; 0x20]%N ++ reply.

Definition status (ser : option Serial) (arrived : list byte)
  : result (list Py.str * option Serial) :=
  match ser with
  | None => Ok ([NOT_CONNECTED], ser)
  | Some s =>
    if negb (is_open s) then Ok ([NOT_CONNECTED], ser)
    else
      let s := write (reset_input_buffer s) (bytes_of "STATUS" ++ [x0a]) in
      let (raw, s) := read_all (receive s arrived) in
      reply <- reply_text raw ;;
      Ok ([REQUESTING; status_message reply], Some s)
  end.

(** *** The /scan command *)

(** [t.replace(ch, new)] for a [ch] of one character *)
Definition replace_char (ch : N) (new : Py.str) (t : Py.str) : Py.str :=
  flat_map (fun c => if (c =? ch)%N then new else [c]) t.

(** The characters of the raw string of line 117. *)
Definition SPECIALS : Py.str := Py.lit "_*[]()~`>#+-=|{}.!%".

(** [esc], lines 116-119: one [replace] per character, in order. *)
Definition esc (t : Py.str) : Py.str :=
  fold_left (fun t ch => replace_char ch [0x5C; ch]%N t) SPECIALS t.

Definition CAPTURING : Py.str :=
  [0x1F4F8]%N ++ Py.lit " Capturing image, please wait...".
Definition CAPTURE_FAILED : Py.str :=
  Py.lit "Camera capture failed (timeout or hardware issue)".
Definition CAMERA_ERROR : Py.str := [0x274C]%N ++ Py.lit " Camera error: ".
Definition ERROR : Py.str := [0x26A0; 0xFE0F]%N ++ Py.lit " Error: ".
Definition TOP3 : Py.str :=
  [0x1F50D]%N ++ Py.lit " *Top 3 predictions:*" ++ [0x0A]%N.
Definition MOST_LIKELY : Py.str :=
  [0x0A; 0x1F331]%N ++ Py.lit " *Most likely:* ".

(** What the format [f'{x:.2f}'] prints for a float and what [str(e)] prints
    for an exception are the libraries' and are left open. *)
Class Printing : Type := {
  fixed2 : R -> Py.str;
  message_of : exn -> Py.str
}.

(** One line of the caption, line 138. *)
Definition caption_line {pr : Printing} (pred : Py.str * R) : Py.str :=
  let (n, p) := pred in
  [0x2022; 0x20]%N ++ esc n ++ [0x20; 0x2014; 0x20]%N
    ++ esc (fixed2 (p * 100)%R ++ Py.lit "%") ++ [0x0A]%N.

(** Lines 136-139; [preds[0]] raises on an empty list. *)
Definition caption {pr : Printing} (preds : list (Py.str * R))
  : result Py.str :=
  let lines := TOP3 ++ concat (map caption_line preds) in
  match preds with
  | (n, _) :: _ => Ok (lines ++ MOST_LIKELY ++ esc n)
  | [] => Raise IndexError
  end.

(** What a handler sends to the chat. *)
Inductive chat : Type :=
| Text (t : Py.str)
| Photo (caption : Py.str).

(** [scan], lines 130-147, from the return code of rpicam-still and the
    raster that [classify_image] reads back from the resized file.  A return
    code other than 0 is the [RuntimeError] of [capture_photo]; every other
    exception goes to the second handler. *)
Definition scan {ext : Externals} {pr : Printing} (classes : list Py.str)
           (m : Interpreter) (returncode : Z) (photo : Image) : list chat :=
  Text CAPTURING ::
  if (returncode =? 0)%Z then
    match (preds <- classify_image classes m photo ;; caption preds) with
    | Ok c => [Photo c]
    | Raise e => [Text (ERROR ++ message_of e)]
    end
  else [Text (CAMERA_ERROR ++ CAPTURE_FAILED)].

End PlantBot.

(** ** Notions the properties are stated with *)

(** [needle] occurs in [hay] as a contiguous run of code points. *)
Definition Substring (needle hay : Py.str) : Prop :=
  exists pre post, hay = pre ++ needle ++ post.

(** [kept] is what remains of [l] once some of its elements are dropped. *)
Inductive subseq {A : Type} : list A -> list A -> Prop :=
| subseq_nil : subseq [] []
| subseq_keep : forall x kept l, subseq kept l -> subseq (x :: kept) (x :: l)
| subseq_drop : forall x kept l, subseq kept l -> subseq kept (x :: l).

(** The order in which [np.argsort] lists two classes: by value, equal
    values by index. *)
Definition key_lt (v : list R) (i j : nat) : Prop :=
  (NP.get v i < NP.get v j)%R \/ (NP.get v i = NP.get v j /\ i < j).

(** All the classes, best first. *)
Definition ranking (v : list R) : list nat := NP.top_k (length v) v.




(** Class [i] has a label that contains [prefer], case-insensitively. *)
Definition matched (prefer : Py.str) (classes : list Py.str) (i : nat) : bool :=
  match nth_error classes i with
  | Some cls => Py.contains (Py.lower prefer) (Py.lower cls)
  | None => false
  end.


(** A character that [esc] escapes. *)
Definition special (c : N) : bool := existsb (N.eqb c) PlantBot.SPECIALS.

(** What [esc] makes of one character. *)
Definition esc_char (c : N) : Py.str :=
  if special c then [0x5C; c]%N else [c].

(** Reading an escaped text back: a backslash before a special character is
    dropped. *)
Fixpoint unesc (t : Py.str) : Py.str :=
  match t with
  | [] => []
  | b :: t' =>
    match t' with
    | c :: t'' =>
      if ((b =? 0x5C)%N && special c)%bool then c :: unesc t''
      else b :: unesc t'
    | [] => [b]
    end
  end.

(** A text with no whitespace at either end. *)
Definition trimmed (t : Py.str) : Prop :=
  (forall c rest, t = c :: rest -> Py.isspace c = false) /\
  (forall c init, t = init ++ [c] -> Py.isspace c = false).

Definition blank (t : Py.str) : Prop :=
  Forall (fun c => Py.isspace c = true) t.

Definition ascii (bs : list N) : Prop := Forall (fun b => (b < 0x80)%N) bs.

(** ** Text: substrings, stripping, decoding *)

Lemma startswith_spec (prefix s : Py.str) :
  Py.startswith s prefix = true <-> exists post, s = prefix ++ post.
Proof.
  revert s; induction prefix as [|p prefix IH]; intros s; simpl.
  - split; [intros _; now exists s | reflexivity].
  - destruct s as [|c s].
    + split; [discriminate | intros [post H]; discriminate].
    + rewrite andb_true_iff, N.eqb_eq, IH. split.
      * intros [-> [post ->]]. now exists post.
      * intros [post H]. injection H as -> ->. split; [reflexivity | now exists post].
Qed.

Lemma contains_spec (needle hay : Py.str) :
  Py.contains needle hay = true <-> Substring needle hay.
Proof.
  unfold Substring. induction hay as [|c hay IH]; simpl.
  - rewrite orb_false_r, startswith_spec. split.
    + intros [post H]. now exists [], post.
    + intros [pre [post H]]. destruct pre; [now exists post | discriminate].
  - rewrite orb_true_iff, startswith_spec, IH. split.
    + intros [[post H] | [pre [post H]]].
      * now exists [], post.
      * exists (c :: pre), post. simpl. now rewrite H.
    + intros [[|c' pre] [post H]].
      * left. now exists post.
      * right. injection H as _ H. now exists pre, post.
Qed.

Lemma lstrip_blank (t : Py.str) :
  Forall (fun c => Py.isspace c = true) t -> Py.lstrip t = [].
Proof.
  induction 1 as [|c t Hc _ IH]; simpl; [reflexivity | now rewrite Hc].
Qed.

Lemma strip_blank (t : Py.str) :
  Forall (fun c => Py.isspace c = true) t -> Py.strip t = [].
Proof.
  intros H. unfold Py.strip, Py.rstrip. now rewrite (lstrip_blank t H).
Qed.

Lemma subseq_refl {A : Type} (l : list A) : subseq l l.
Proof. induction l; constructor; assumption. Qed.

Lemma subseq_app_head {A : Type} (l1 kept l : list A) :
  subseq kept l -> subseq (l1 ++ kept) (l1 ++ l).
Proof. intros H. induction l1; simpl; [assumption | now constructor]. Qed.

Lemma subseq_skipn {A : Type} (k : nat) (kept l : list A) :
  subseq kept (skipn k l) -> subseq kept l.
Proof.
  revert l; induction k as [|k IH]; intros l H; [assumption|].
  destruct l as [|x l]; [assumption|]. constructor. now apply IH.
Qed.

Lemma subseq_map_inv {A B : Type} (f : A -> B) (l : list A) (kept' : list B) :
  subseq kept' (map f l) -> exists kept, subseq kept l /\ map f kept = kept'.
Proof.
  revert kept'; induction l as [|x l IH]; intros kept' H; simpl in H.
  - inversion H; subst. exists []. split; [constructor | reflexivity].
  - inversion H as [| y k' l' Hsub | y k' l' Hsub]; subst.
    + destruct (IH _ Hsub) as [kept [Hs Hm]].
      exists (x :: kept). split; [now constructor | simpl; now rewrite Hm].
    + destruct (IH _ Hsub) as [kept [Hs Hm]].
      exists kept. split; [now constructor | assumption].
Qed.

Lemma subseq_length {A : Type} (kept l : list A) :
  subseq kept l -> length kept <= length l.
Proof. induction 1; simpl; lia. Qed.

Lemma decode_from_skip (h : Py.errors) (k : nat) (bs : list N) :
  Py.decode_from h k bs = Py.decode_from h 0 (skipn k bs).
Proof.
  revert bs; induction k as [|k IH]; intros bs; [reflexivity|].
  destruct bs as [|b bs]; [reflexivity|]. exact (IH bs).
Qed.

Ltac scan_cases H :=
  repeat match type of H with
         | (if ?c then _ else _) = _ => destruct c eqn:?
         | match ?l with [] => _ | _ :: _ => _ end = _ => destruct l
         end;
  try discriminate H.

(** A code point is decoded from bytes that are there, and from them alone. *)
Lemma utf8_scan_char (bs : list N) (c : N) (w : nat) :
  Py.utf8_scan bs = Py.Char c w ->
  1 <= w <= length bs /\
  forall tl, Py.utf8_scan (firstn w bs ++ tl) = Py.Char c w.
Proof.
  intros H. unfold Py.utf8_scan in H.
  destruct bs as [|ch r1]; [discriminate|].
  scan_cases H; injection H as <- <-;
    (split; [simpl; lia|]); intros tl; simpl;
    repeat match goal with
           | E : ?c = _ |- context [?c] => rewrite E
           end; reflexivity.
Qed.

Lemma utf8_scan_invalid (b : N) (r : list N) (w : nat) :
  Py.utf8_scan (b :: r) = Py.Invalid w -> 1 <= w <= length (b :: r).
Proof.
  intros H. unfold Py.utf8_scan in H.
  scan_cases H; injection H as <-; simpl; lia.
Qed.

Lemma decode_ignore_kept (n : nat) :
  forall bs, length bs <= n ->
  exists t kept,
    Py.decode_from Py.ignore 0 bs = Ok t /\ subseq kept bs /\
    Py.decode_from Py.strict 0 kept = Ok t.
Proof.
  induction n as [|n IH]; intros bs Hn.
  - destruct bs; [|simpl in Hn; lia]. exists [], []. repeat split. constructor.
  - destruct bs as [|b r].
    + exists [], []. repeat split. constructor.
    + change (Py.decode_from Py.ignore 0 (b :: r))
        with (match Py.utf8_scan (b :: r) with
              | Py.Char c w =>
                t <- Py.decode_from Py.ignore (pred w) r ;; Ok (c :: t)
              | Py.Invalid w => Py.decode_from Py.ignore (pred w) r
              end).
      destruct (Py.utf8_scan (b :: r)) as [c w | w] eqn:Hscan.
      * destruct (utf8_scan_char _ _ _ Hscan) as [[Hw1 Hw2] Hpre].
        destruct (IH (skipn (pred w) r)) as [t [kept [Hi [Hs Hk]]]].
        { rewrite length_skipn. simpl in Hn. lia. }
        exists (c :: t), (firstn w (b :: r) ++ kept).
        rewrite decode_from_skip, Hi. split; [reflexivity|]. split.
        { rewrite <- (firstn_skipn w (b :: r)) at 2. apply subseq_app_head.
          destruct w as [|w]; [lia|]. exact Hs. }
        { specialize (Hpre kept). destruct w as [|w]; [lia|].
          simpl firstn in *. simpl app in *.
          change (Py.decode_from Py.strict 0 (b :: firstn w r ++ kept))
            with (match Py.utf8_scan (b :: firstn w r ++ kept) with
                  | Py.Char c' w' =>
                    t <- Py.decode_from Py.strict (pred w') (firstn w r ++ kept) ;;
                    Ok (c' :: t)
                  | Py.Invalid _ => Raise UnicodeDecodeError
                  end).
          rewrite Hpre. simpl pred. rewrite decode_from_skip.
          rewrite skipn_app, length_firstn.
          simpl in Hw2.
          replace (Nat.min w (length r)) with w by lia.
          rewrite Nat.sub_diag. simpl skipn at 2.
          rewrite skipn_firstn_comm, Nat.sub_diag. simpl.
          simpl in Hk. now rewrite Hk. }
      * destruct (utf8_scan_invalid _ _ _ Hscan) as [Hw1 Hw2].
        destruct (IH (skipn (pred w) r)) as [t [kept [Hi [Hs Hk]]]].
        { rewrite length_skipn. simpl in Hn. lia. }
        exists t, kept. rewrite decode_from_skip. split; [exact Hi|].
        split; [|exact Hk]. constructor. now apply subseq_skipn with (pred w).
Qed.

Lemma decode_ignore_total (raw : list byte) :
  exists t kept,
    Py.decode Py.ignore raw = Ok t /\ subseq kept raw /\
    Py.decode Py.strict kept = Ok t.
Proof.
  unfold Py.decode.
  destruct (decode_ignore_kept (length (map Byte.to_N raw)) _ (le_n _))
    as [t [keptN [Hi [Hs Hk]]]].
  destruct (subseq_map_inv Byte.to_N raw keptN Hs) as [kept [Hsub Hmap]].
  exists t, kept. rewrite Hmap. auto.
Qed.

(** ** Arrays: sums and divisions *)

Section ArrayFacts.

Local Open Scope R_scope.

Lemma mapM_ok {A B : Type} (f : A -> result B) (g : A -> B) (l : list A) :
  (forall x, In x l -> f x = Ok (g x)) -> mapM f l = Ok (map g l).
Proof.
  induction l as [|a l IH]; intros H; simpl; [reflexivity|].
  rewrite (H a (or_introl eq_refl)). simpl.
  rewrite IH; [reflexivity|]. intros x Hx. apply H. now right.
Qed.

Lemma div_ok (x y : R) : y <> 0 -> NP.div x y = Ok (x / y).
Proof. intros H. unfold NP.div. destruct (Req_dec_T y 0); [contradiction | reflexivity]. Qed.

Lemma div_zero (x : R) : NP.div x 0 = Raise NonFinite.
Proof. unfold NP.div. destruct (Req_dec_T 0 0); [reflexivity | contradiction]. Qed.

Lemma log_ok (x : R) : 0 < x -> NP.log x = Ok (ln x).
Proof. intros H. unfold NP.log. destruct (Rlt_dec 0 x); [reflexivity | contradiction]. Qed.

Lemma vdiv_ok (v : list R) (s : R) :
  s <> 0 -> NP.vdiv v s = Ok (map (fun x => x / s) v).
Proof. intros H. apply mapM_ok. intros x _. now apply div_ok. Qed.

Lemma vdiv_zero (x : R) (v : list R) : NP.vdiv (x :: v) 0 = Raise NonFinite.
Proof. unfold NP.vdiv. simpl. now rewrite div_zero. Qed.

Lemma sum_map_div (v : list R) (s : R) :
  NP.sum (map (fun x => x / s) v) = NP.sum v / s.
Proof.
  induction v as [|x v IH]; simpl; [unfold Rdiv; ring|].
  rewrite IH. unfold Rdiv. ring.
Qed.

Lemma sum_nonneg (v : list R) : Forall (fun x => 0 <= x) v -> 0 <= NP.sum v.
Proof. induction 1 as [|x v Hx _ IH]; simpl; lra. Qed.

Lemma sum_pos (v : list R) :
  Forall (fun x => 0 <= x) v -> Exists (fun x => x <> 0) v -> 0 < NP.sum v.
Proof.
  intros Hall Hex. induction Hex as [x v Hx | x v Hex IH];
    inversion Hall as [|y w Hy Hw]; subst; simpl.
  - pose proof (sum_nonneg v Hw). lra.
  - specialize (IH Hw). lra.
Qed.

Lemma sum_map_exp_pos (x : R) (l : list R) : 0 < NP.sum (map exp (x :: l)).
Proof.
  revert x; induction l as [|y l IH]; intros x; simpl.
  - pose proof (exp_pos x). lra.
  - specialize (IH y). simpl in IH. pose proof (exp_pos x). lra.
Qed.

Lemma get_map (f : R -> R) (v : list R) (i : nat) :
  (i < length v)%nat -> NP.get (map f v) i = f (NP.get v i).
Proof.
  intros H. unfold NP.get.
  rewrite (nth_indep (map f v) 0 (f 0)) by now rewrite length_map.
  apply map_nth.
Qed.


(** *** The temperature stage *)

Lemma temperature_skipped (output : list R) :
  Predict.temperature_stage 1 output = Ok output.
Proof.
  unfold Predict.temperature_stage.
  destruct (Req_dec_T 1 1); [reflexivity | contradiction].
Qed.

Lemma temperature_applied (temp : R) (output : list R) :
  temp <> 1 -> temp <> 0 -> Forall (fun x => 0 <= x) output ->
  let exp_logits := map (fun x => exp (ln (x + 1e-9) / temp)) output in
  Predict.temperature_stage temp output =
    Ok (map (fun e => e / NP.sum exp_logits) exp_logits).
Proof.
  intros H1 H0 Hall exp_logits. unfold Predict.temperature_stage.
  destruct (Req_dec_T temp 1); [contradiction|].
  rewrite (mapM_ok _ (fun x => ln (x + 1e-9))).
  2:{ intros x Hx. apply log_ok. rewrite Forall_forall in Hall.
      specialize (Hall x Hx). lra. }
  simpl. rewrite (mapM_ok _ (fun l => l / temp)).
  2:{ intros l _. now apply div_ok. }
  simpl. rewrite !map_map. fold exp_logits.
  destruct output as [|x output]; [reflexivity|].
  apply vdiv_ok. subst exp_logits.
  pose proof (sum_map_exp_pos (ln (x + 1e-9) / temp)
                (map (fun x => ln (x + 1e-9) / temp) output)) as Hpos.
  simpl in Hpos. rewrite map_map in Hpos. simpl. lra.
Qed.


End ArrayFacts.

(** *** The boost loop *)

Section BoostFacts.

Local Open Scope R_scope.

Lemma length_set (v : list R) (i : nat) (x : R) :
  length (NP.set v i x) = length v.
Proof.
  revert i; induction v as [|y v IH]; intros [|i]; simpl; auto.
Qed.

Lemma get_set (v : list R) (i j : nat) (x : R) :
  (i < length v)%nat ->
  NP.get (NP.set v i x) j = if Nat.eqb j i then x else NP.get v j.
Proof.
  unfold NP.get. revert i j; induction v as [|y v IH]; intros i j H.
  - simpl in H. lia.
  - destruct i as [|i], j as [|j]; simpl; try reflexivity.
    apply IH. simpl in H. lia.
Qed.

Lemma set_same (v : list R) (i : nat) (x : R) :
  nth_error v i = Some x -> NP.set v i x = v.
Proof.
  revert i; induction v as [|y v IH]; intros [|i] H; simpl in *;
    try discriminate.
  - now injection H as ->.
  - now rewrite IH.
Qed.

Lemma nth_error_get (v : list R) (i : nat) (x : R) :
  nth_error v i = Some x -> NP.get v i = x /\ (i < length v)%nat.
Proof.
  intros H. split.
  - unfold NP.get. now apply nth_error_nth.
  - apply nth_error_Some. congruence.
Qed.

Lemma boost_loop_spec (pl : Py.str) (b : R) (classes : list Py.str) :
  forall (i : nat) (output : list R),
    (i + length classes <= length output)%nat ->
    exists out',
      Predict.boost_loop pl b i classes output = Ok out' /\
      length out' = length output /\
      forall j,
        NP.get out' j =
        if (i <=? j)%nat &&
           match nth_error classes (j - i) with
           | Some cls => Py.contains pl (Py.lower cls)
           | None => false
           end
        then NP.get output j * (1 + b) else NP.get output j.
Proof.
  induction classes as [|cls classes IH]; intros i output Hlen; simpl.
  - exists output. repeat split. intros j.
    destruct (j - i)%nat; simpl; now rewrite andb_false_r.
  - simpl in Hlen.
    assert (forall (o : list R) (hit : bool),
               length o = length output ->
               (forall j, NP.get o j =
                          if (Nat.eqb j i && hit)%bool
                          then NP.get output j * (1 + b) else NP.get output j) ->
               Py.contains pl (Py.lower cls) = hit ->
               exists out',
                 Predict.boost_loop pl b (S i) classes o = Ok out' /\
                 length out' = length output /\
                 forall j,
                   NP.get out' j =
                   if (i <=? j)%nat &&
                      match nth_error (cls :: classes) (j - i) with
                      | Some c => Py.contains pl (Py.lower c)
                      | None => false
                      end
                   then NP.get output j * (1 + b) else NP.get output j) as Hstep.
    { intros o hit Ho Hget Hhit.
      destruct (IH (S i) o) as [out' [Hloop [Hl Hj]]]; [lia|].
      exists out'. split; [exact Hloop|]. split; [congruence|].
      intros j. rewrite Hj, Hget.
      destruct (Nat.eq_dec j i) as [-> | Hne].
      - rewrite Nat.eqb_refl, Nat.sub_diag. simpl nth_error.
        replace (S i <=? i)%nat with false by (symmetry; apply Nat.leb_gt; lia).
        rewrite Nat.leb_refl, Hhit. reflexivity.
      - replace (Nat.eqb j i) with false by (symmetry; now apply Nat.eqb_neq).
        simpl andb at 2. cbv iota.
        destruct (Nat.le_gt_cases (S i) j) as [Hle | Hgt].
        + replace (j - i)%nat with (S (j - S i)) by lia. simpl nth_error.
          replace (S i <=? j)%nat with true by (symmetry; apply Nat.leb_le; lia).
          replace (i <=? j)%nat with true by (symmetry; apply Nat.leb_le; lia).
          reflexivity.
        + replace (S i <=? j)%nat with false by (symmetry; apply Nat.leb_gt; lia).
          replace (i <=? j)%nat with false by (symmetry; apply Nat.leb_gt; lia).
          reflexivity. }
    destruct (Py.contains pl (Py.lower cls)) eqn:Hhit.
    + destruct (nth_error output i) as [x|] eqn:Hx.
      * destruct (nth_error_get _ _ _ Hx) as [Hgx Hi].
        apply (Hstep _ true); [apply length_set | | reflexivity].
        intros j. rewrite get_set by exact Hi. rewrite andb_true_r.
        destruct (Nat.eqb j i) eqn:E; [|reflexivity].
        apply Nat.eqb_eq in E. subst j. now rewrite Hgx.
      * apply nth_error_None in Hx. lia.
    + apply (Hstep output false); [reflexivity | | reflexivity].
      intros j. now rewrite andb_false_r.
Qed.

(** Lines 76-80 on labels that are index-aligned with the array: every class
    whose label matches is multiplied once, the others are left alone. *)
Lemma boost_stage_spec (c : N) (p : Py.str) (b : R)
      (classes : list Py.str) (output : list R) :
  (length classes <= length output)%nat ->
  exists out',
    Predict.boost_stage (Some (c :: p)) b classes output = Ok out' /\
    length out' = length output /\
    forall j,
      NP.get out' j =
      if matched (c :: p) classes j
      then NP.get output j * (1 + b) else NP.get output j.
Proof.
  intros Hlen. unfold Predict.boost_stage.
  destruct (boost_loop_spec (Py.lower (c :: p)) b classes 0 output Hlen)
    as [out' [Hloop [Hl Hj]]].
  exists out'. split; [exact Hloop|]. split; [exact Hl|].
  intros j. rewrite Hj. unfold matched. rewrite Nat.sub_0_r. reflexivity.
Qed.


Lemma get_Forall (P : R -> Prop) (v : list R) (j : nat) :
  Forall P v -> (j < length v)%nat -> P (NP.get v j).
Proof.
  intros H Hj. rewrite Forall_forall in H. apply H. unfold NP.get.
  now apply nth_In.
Qed.



End BoostFacts.

(** ** Sorted lists *)

Section SortedFacts.

Context {A : Type}.

Lemma StronglySorted_app (ord : A -> A -> Prop) (l1 l2 : list A) :
  StronglySorted ord l1 -> StronglySorted ord l2 ->
  (forall x y, In x l1 -> In y l2 -> ord x y) ->
  StronglySorted ord (l1 ++ l2).
Proof.
  intros H1 H2 H. induction H1 as [|a l1 Hs IH Ha]; simpl; [assumption|].
  constructor.
  - apply IH. intros x y Hx Hy. apply H; [now right | assumption].
  - apply Forall_app. split; [assumption|].
    apply Forall_forall. intros y Hy. apply H; [now left | assumption].
Qed.

Lemma StronglySorted_app_inv (ord : A -> A -> Prop) (l1 l2 : list A) :
  StronglySorted ord (l1 ++ l2) ->
  StronglySorted ord l1 /\ StronglySorted ord l2 /\
  forall x y, In x l1 -> In y l2 -> ord x y.
Proof.
  induction l1 as [|a l1 IH]; simpl; intros H.
  - repeat split; [constructor | assumption | intros x y []].
  - apply StronglySorted_inv in H. destruct H as [Hs Ha].
    destruct (IH Hs) as [H1 [H2 H12]].
    apply Forall_app in Ha. destruct Ha as [Ha1 Ha2].
    repeat split; [now constructor | assumption |].
    intros x y [<- | Hx] Hy.
    + rewrite Forall_forall in Ha2. now apply Ha2.
    + now apply H12.
Qed.

Lemma StronglySorted_rev (ord : A -> A -> Prop) (l : list A) :
  StronglySorted ord l -> StronglySorted (fun a b => ord b a) (rev l).
Proof.
  induction 1 as [|a l Hs IH Ha]; simpl; [constructor|].
  apply StronglySorted_app; [assumption | repeat constructor |].
  intros x y Hx [<- | []]. apply in_rev in Hx.
  rewrite Forall_forall in Ha. now apply Ha.
Qed.

Lemma StronglySorted_firstn (ord : A -> A -> Prop) (k : nat) (l : list A) :
  StronglySorted ord l -> StronglySorted ord (firstn k l).
Proof.
  intros H. rewrite <- (firstn_skipn k l) in H.
  now apply (StronglySorted_app_inv ord) in H.
Qed.

Lemma StronglySorted_nth (ord : A -> A -> Prop) (l : list A) (d : A) :
  StronglySorted ord l ->
  forall a b, a < b < length l -> ord (nth a l d) (nth b l d).
Proof.
  induction 1 as [|x l Hs IH Hx]; intros a b Hab; simpl in Hab; [lia|].
  destruct b as [|b]; [lia|]. destruct a as [|a]; simpl.
  - rewrite Forall_forall in Hx. apply Hx. apply nth_In. lia.
  - apply IH. lia.
Qed.


End SortedFacts.

(** ** [np.argsort] and the ranking *)

Section RankingFacts.

Variable v : list R.

Lemma Rltb_true (x y : R) : NP.Rltb x y = true <-> (x < y)%R.
Proof.
  unfold NP.Rltb. destruct (Rlt_dec x y); split; intros; auto;
    try discriminate; try contradiction.
Qed.

Lemma Rltb_false (x y : R) : NP.Rltb x y = false <-> (y <= x)%R.
Proof.
  unfold NP.Rltb. destruct (Rlt_dec x y); split; intros; auto; try discriminate;
    lra.
Qed.


Lemma key_lt_trans (i j k : nat) : key_lt v i j -> key_lt v j k -> key_lt v i k.
Proof.
  unfold key_lt. intros [H1 | [H1 H1']] [H2 | [H2 H2']].
  - left; lra.
  - left; lra.
  - left; lra.
  - right; split; [lra | lia].
Qed.


Lemma key_lt_total (i j : nat) : i <> j -> key_lt v i j \/ key_lt v j i.
Proof.
  intros Hne. unfold key_lt.
  destruct (Rtotal_order (NP.get v i) (NP.get v j)) as [H | [H | H]]; auto.
  destruct (Nat.lt_total i j) as [H' | [H' | H']]; auto; contradiction.
Qed.

Lemma In_insert (i x : nat) (l : list nat) :
  In x (NP.insert v i l) <-> x = i \/ In x l.
Proof.
  induction l as [|j l IH]; simpl.
  - intuition.
  - destruct (NP.Rltb (NP.get v i) (NP.get v j)); simpl; rewrite ?IH; intuition.
Qed.

Lemma length_insert (i : nat) (l : list nat) :
  length (NP.insert v i l) = S (length l).
Proof.
  induction l as [|j l IH]; simpl; [reflexivity|].
  destruct (NP.Rltb (NP.get v i) (NP.get v j)); simpl; now rewrite ?IH.
Qed.

(** Inserting an index greater than those already sorted keeps the list in
    key order: the new index goes after the entries that are not greater. *)
Lemma insert_sorted (i : nat) (l : list nat) :
  StronglySorted (key_lt v) l -> Forall (fun j => j < i) l ->
  StronglySorted (key_lt v) (NP.insert v i l).
Proof.
  induction 1 as [|j l Hs IH Hj]; intros Hlt; simpl.
  - repeat constructor.
  - apply Forall_cons_iff in Hlt. destruct Hlt as [Hji Hlt].
    destruct (NP.Rltb (NP.get v i) (NP.get v j)) eqn:E.
    + apply Rltb_true in E. constructor; [now constructor|].
      constructor; [now left|].
      apply Forall_forall. intros x Hx. rewrite Forall_forall in Hj.
      apply key_lt_trans with j; [now left | now apply Hj].
    + apply Rltb_false in E. constructor; [now apply IH|].
      apply Forall_forall. intros x Hx. apply In_insert in Hx.
      destruct Hx as [-> | Hx].
      * unfold key_lt. destruct E as [E | E]; [now left | right; now split].
      * rewrite Forall_forall in Hj. now apply Hj.
Qed.

Lemma argsort_upto (n : nat) :
  let s := fold_left (fun sorted i => NP.insert v i sorted) (seq 0 n) [] in
  StronglySorted (key_lt v) s /\ (forall x, In x s <-> x < n) /\ length s = n.
Proof.
  induction n as [|n IH]; cbv zeta in *.
  - split; [constructor|].
    split; [intros x; split; [intros [] | lia] | reflexivity].
  - rewrite seq_S, fold_left_app. simpl.
    destruct IH as [Hs [Hin Hlen]].
    set (s := fold_left (fun sorted i => NP.insert v i sorted) (seq 0 n) []) in *.
    repeat split.
    + apply insert_sorted; [assumption|].
      apply Forall_forall. intros x Hx. now apply Hin.
    + intros Hx. apply In_insert in Hx. destruct Hx as [-> | Hx]; [lia|].
      apply Hin in Hx. lia.
    + intros Hx. apply In_insert.
      destruct (Nat.eq_dec x n); [now left | right; apply Hin; lia].
    + now rewrite length_insert, Hlen.
Qed.

Lemma argsort_sorted : StronglySorted (key_lt v) (NP.argsort v).
Proof. apply (argsort_upto (length v)). Qed.

Lemma In_argsort (x : nat) : In x (NP.argsort v) <-> x < length v.
Proof. apply (argsort_upto (length v)). Qed.

Lemma length_argsort : length (NP.argsort v) = length v.
Proof. apply (argsort_upto (length v)). Qed.

Lemma top_k_firstn (k : nat) : NP.top_k k v = firstn k (rev (NP.argsort v)).
Proof. unfold NP.top_k, NP.last_k. now rewrite firstn_rev. Qed.

Lemma ranking_rev : ranking v = rev (NP.argsort v).
Proof.
  unfold ranking. rewrite top_k_firstn.
  apply firstn_all2. rewrite length_rev, length_argsort. lia.
Qed.

Lemma ranking_sorted : StronglySorted (fun i j => key_lt v j i) (ranking v).
Proof. rewrite ranking_rev. apply StronglySorted_rev, argsort_sorted. Qed.

Lemma In_ranking (x : nat) : In x (ranking v) <-> x < length v.
Proof. rewrite ranking_rev, <- in_rev. apply In_argsort. Qed.


Lemma top_k_ranking (k : nat) : NP.top_k k v = firstn k (ranking v).
Proof. now rewrite top_k_firstn, ranking_rev. Qed.

End RankingFacts.

(** ** The ranking depends on comparisons only *)

Section Rescaling.

Local Open Scope R_scope.

Lemma insert_ext (v w : list R) (i : nat) (l : list nat) :
  (forall j, NP.Rltb (NP.get v i) (NP.get v j)
             = NP.Rltb (NP.get w i) (NP.get w j)) ->
  NP.insert v i l = NP.insert w i l.
Proof.
  intros H. induction l as [|j l IH]; simpl; [reflexivity|].
  now rewrite H, IH.
Qed.

Lemma argsort_ext (v w : list R) :
  length v = length w ->
  (forall i j, NP.Rltb (NP.get v i) (NP.get v j)
               = NP.Rltb (NP.get w i) (NP.get w j)) ->
  NP.argsort v = NP.argsort w.
Proof.
  intros Hlen H. unfold NP.argsort. rewrite Hlen.
  generalize (seq 0 (length w)). intros l. generalize (@nil nat).
  induction l as [|i l IH]; intros acc; simpl; [reflexivity|].
  rewrite (insert_ext v w i acc) by (intros j; apply H). apply IH.
Qed.

Lemma get_map_div (v : list R) (s : R) (i : nat) :
  NP.get (map (fun x => x / s) v) i = NP.get v i / s.
Proof.
  unfold NP.get. revert i; induction v as [|x v IH]; intros [|i]; simpl;
    try reflexivity; try (unfold Rdiv; ring). apply IH.
Qed.

Lemma Rltb_div (x y s : R) :
  0 < s -> NP.Rltb (x / s) (y / s) = NP.Rltb x y.
Proof.
  intros Hs. pose proof (Rinv_0_lt_compat s Hs) as Hi.
  unfold NP.Rltb, Rdiv.
  destruct (Rlt_dec (x * / s) (y * / s)), (Rlt_dec x y); try reflexivity;
    exfalso; nra.
Qed.

(** Dividing the array by a positive number changes no rank. *)
Lemma argsort_div (v : list R) (s : R) :
  0 < s -> NP.argsort (map (fun x => x / s) v) = NP.argsort v.
Proof.
  intros Hs. apply argsort_ext; [apply length_map|].
  intros i j. rewrite !get_map_div. now apply Rltb_div.
Qed.

Lemma top_k_div (k : nat) (v : list R) (s : R) :
  0 < s -> NP.top_k k (map (fun x => x / s) v) = NP.top_k k v.
Proof.
  intros Hs. unfold NP.top_k, NP.last_k. now rewrite argsort_div.
Qed.

Lemma argmax_from_div (s : R) (v : list R) :
  0 < s ->
  forall i best best_val,
    NP.argmax_from (map (fun x => x / s) v) i best (best_val / s)
    = NP.argmax_from v i best best_val.
Proof.
  intros Hs. induction v as [|x v IH]; intros i best best_val; simpl;
    [reflexivity|].
  rewrite Rltb_div by exact Hs.
  destruct (NP.Rltb best_val x); apply IH.
Qed.

Lemma argmax_div (s : R) (v : list R) :
  0 < s -> NP.argmax (map (fun x => x / s) v) = NP.argmax v.
Proof.
  intros Hs. destruct v as [|x v]; simpl; [reflexivity|].
  now rewrite argmax_from_div.
Qed.

(** Lines 68-82 when no stage changes an entry: what is left is the
    division of line 82. *)
Lemma postprocess_unstaged (a : Predict.args) (classes : list Py.str)
      (output : list R) :
  Predict.temp a = 1 ->
  Predict.prefer a = None \/ Predict.boost a = 0 ->
  length classes = length output ->
  Predict.postprocess a classes output = NP.vdiv output (NP.sum output).
Proof.
  intros Ht Hb Hlen. unfold Predict.postprocess.
  rewrite Ht, temperature_skipped. simpl.
  assert (Predict.boost_stage (Predict.prefer a) (Predict.boost a)
                              classes output = Ok output) as E.
  { destruct (Predict.prefer a) as [[|c p]|] eqn:Hp; try reflexivity.
    destruct Hb as [Hb | Hb]; [discriminate|]. rewrite Hb.
    destruct (boost_stage_spec c p 0 classes output)
      as [out' [Hs [Hl Hj]]]; [lia|].
    transitivity (Ok out'); [exact Hs|].
    f_equal. apply nth_ext with (d := 0) (d' := 0); [exact Hl|].
    intros j _. fold (NP.get out' j) (NP.get output j). rewrite Hj.
    destruct (matched (c :: p) classes j); ring. }
  now rewrite E.
Qed.

End Rescaling.

(** ** Ranks *)

Section RankFacts.

Local Open Scope R_scope.









End RankFacts.

(** ** The interpreter and the input tensor *)

Section InferenceFacts.

Context {ext : Externals}.

Lemma run_ok (m : Interpreter) (x : ndarray) :
  dt x = input_dtype m -> shape x = input_shape m ->
  run m x = Ok (forward m (data x)).
Proof.
  intros Hd Hs. unfold run, set_tensor.
  destruct (dtype_eq_dec (dt x) (input_dtype m)); [|contradiction].
  destruct (list_eq_dec Nat.eq_dec (shape x) (input_shape m));
    [reflexivity | contradiction].
Qed.

Lemma run_shape_mismatch (m : Interpreter) (x : ndarray) :
  dt x = input_dtype m -> shape x <> input_shape m ->
  run m x = Raise TensorShapeMismatch.
Proof.
  intros Hd Hs. unfold run, set_tensor.
  destruct (dtype_eq_dec (dt x) (input_dtype m)); [|contradiction].
  destruct (list_eq_dec Nat.eq_dec (shape x) (input_shape m));
    [contradiction | reflexivity].
Qed.

Lemma run_type_mismatch (m : Interpreter) (x : ndarray) :
  dt x <> input_dtype m -> run m x = Raise TensorTypeMismatch.
Proof.
  intros Hd. unfold run, set_tensor.
  destruct (dtype_eq_dec (dt x) (input_dtype m)); [contradiction | reflexivity].
Qed.

(** The tensor of the bot is 1 x 224 x 224 x 3 whatever the photo. *)
Lemma bot_tensor_shape (m : Interpreter) (img : Image) :
  shape (PlantBot.input_tensor m img) = [1; 224; 224; 3].
Proof.
  unfold PlantBot.input_tensor.
  destruct (dtype_eq_dec (input_dtype m) uint8); reflexivity.
Qed.

Lemma bot_tensor_dtype (m : Interpreter) (img : Image) :
  dt (PlantBot.input_tensor m img)
  = if dtype_eq_dec (input_dtype m) uint8 then uint8 else float32.
Proof.
  unfold PlantBot.input_tensor.
  destruct (dtype_eq_dec (input_dtype m) uint8); reflexivity.
Qed.

Lemma bot_tensor_supported (m : Interpreter) (img : Image) :
  input_dtype m = uint8 \/ input_dtype m = float32 ->
  dt (PlantBot.input_tensor m img) = input_dtype m.
Proof.
  intros H. rewrite bot_tensor_dtype.
  destruct (dtype_eq_dec (input_dtype m) uint8) as [E | E]; [now rewrite E|].
  destruct H as [H | H]; [contradiction | now rewrite H].
Qed.

(** The tensor of the script is 1 x s x s x 3, [s] being the second
    dimension the model declares, whatever the image. *)
Lemma script_tensor (a : Predict.args) (m : Interpreter) (img : Image)
      (size : nat) :
  input_dtype m = uint8 \/ input_dtype m = float32 ->
  nth_error (input_shape m) 1 = Some size ->
  exists x,
    Predict.load_input a m img = Ok x /\
    shape x = [1; size; size; 3] /\ dt x = input_dtype m.
Proof.
  intros Hd Hs. unfold Predict.load_input. rewrite Hs.
  destruct Hd as [Hd | Hd]; rewrite Hd; eexists; (split; [reflexivity|]);
    split; try reflexivity;
    destruct (Req_dec_T (Predict.brighten a) 1); reflexivity.
Qed.

Lemma script_unsupported (a : Predict.args) (m : Interpreter) (img : Image)
      (size : nat) :
  input_dtype m <> uint8 -> input_dtype m <> float32 ->
  nth_error (input_shape m) 1 = Some size ->
  Predict.load_input a m img = Raise UnsupportedDtype.
Proof.
  intros H8 H32 Hs. unfold Predict.load_input. rewrite Hs.
  destruct (input_dtype m); try reflexivity; contradiction.
Qed.

End InferenceFacts.

(** ** The handlers on an open port *)

Lemma open_port_water (s : PlantBot.Serial) (arrived : list byte) :
  PlantBot.is_open s = true ->
  PlantBot.water (Some s) arrived =
    (reply <- PlantBot.reply_text arrived ;;
     Ok ([PlantBot.WATERING_STARTED;
          PlantBot.water_message (PlantBot.classify reply)],
         Some (PlantBot.mkSerial true []
                 ((PlantBot.bytes_of "PUMP" ++ [x0a]) :: PlantBot.written s)))).
Proof.
  intros H. unfold PlantBot.water, PlantBot.read_all, PlantBot.receive,
    PlantBot.write, PlantBot.reset_input_buffer. simpl.
  rewrite H. reflexivity.
Qed.

Lemma open_port_status (s : PlantBot.Serial) (arrived : list byte) :
  PlantBot.is_open s = true ->
  PlantBot.status (Some s) arrived =
    (reply <- PlantBot.reply_text arrived ;;
     Ok ([PlantBot.REQUESTING; PlantBot.status_message reply],
         Some (PlantBot.mkSerial true []
                 ((PlantBot.bytes_of "STATUS" ++ [x0a]) :: PlantBot.written s)))).
Proof.
  intros H. unfold PlantBot.status, PlantBot.read_all, PlantBot.receive,
    PlantBot.write, PlantBot.reset_input_buffer. simpl.
  rewrite H. reflexivity.
Qed.

(** ** Evaluation on given arrays *)


Ltac np_compare :=
  repeat match goal with
         | |- context [NP.Rltb ?x ?y] =>
           first
             [ replace (NP.Rltb x y) with true
                 by (symmetry; apply Rltb_true; lra)
             | replace (NP.Rltb x y) with false
                 by (symmetry; apply Rltb_false; lra) ]
         end.

Ltac np_eval := repeat progress (simpl; unfold NP.get; simpl; np_compare).

Lemma In_firstn_ranking (k : nat) (v : list R) (i : nat) :
  In i (NP.top_k k v) -> In i (ranking v).
Proof.
  rewrite top_k_ranking. intros H.
  rewrite <- (firstn_skipn k (ranking v)). apply in_or_app. now left.
Qed.

(** The array of the specification's example, boosted for cactus. *)
Lemma cactus_boosted :
  Predict.boost_stage (Some (Py.lit "cactus")) (1/2)
    [Py.lit "rose"; Py.lit "cactus"; Py.lit "fern"] [7/10; 2/10; 1/10]%R
  = Ok [7/10; 3/10; 1/10]%R.
Proof.
  transitivity (Ok [7/10; 2/10 * (1 + 1/2); 1/10]%R); [reflexivity|].
  apply f_equal. apply f_equal2; [reflexivity|].
  apply f_equal2; [field | reflexivity].
Qed.

Lemma cactus_renormalised :
  Predict.postprocess (Predict.mkArgs (Some (Py.lit "cactus")) (1/2) 1 1)
    [Py.lit "rose"; Py.lit "cactus"; Py.lit "fern"] [7/10; 2/10; 1/10]%R
  = Ok [7/11; 3/11; 1/11]%R.
Proof.
  unfold Predict.postprocess. simpl Predict.temp.
  rewrite temperature_skipped. simpl Predict.prefer. simpl Predict.boost.
  cbn [bind]. rewrite cactus_boosted. cbn [bind].
  rewrite vdiv_ok by (simpl; lra). simpl.
  apply f_equal. apply f_equal2; [field|].
  apply f_equal2; [field|]. apply f_equal2; [field | reflexivity].
Qed.

Lemma reply_decoding_total (raw : list byte) :
  exists reply, PlantBot.reply_text raw = Ok reply.
Proof.
  destruct (decode_ignore_total raw) as [t [_ [Hd _]]].
  exists (Py.strip t). unfold PlantBot.reply_text. now rewrite Hd.
Qed.

Lemma temperature_gives_positive_ok (temp : R) (output : list R) :
  temp <> 0%R -> temp <> 1%R -> Forall (fun x => 0 <= x)%R output ->
  exists v, Predict.temperature_stage temp output = Ok v.
Proof.
  intros H0 H1 Hall. eexists. now apply temperature_applied.
Qed.


(** * The properties *)

(** ** The inference engine *)

(** C7, on a model whose input is int8: the script raises its
    unsupported-dtype error before converting anything; the bot makes no such
    check, runs the float conversion, and fails only when the interpreter
    refuses the float32 tensor. *)
Theorem bot_converts_unsupported_dtype
        (ext : Externals) (a : Predict.args) (classes : list Py.str)
        (f : list R -> list R) (img : Image) :
  let m := mkInterpreter [1; 224; 224; 3] int8 f in
  Predict.infer a m img = Raise UnsupportedDtype /\
  PlantBot.input_tensor m img
  = preprocess_input
      (expand_dims (astype float32 (np_array (resize img 224 224)))) /\
  PlantBot.classify_image classes m img = Raise TensorTypeMismatch.
Proof.
  intros m. split; [|split].
  - unfold Predict.infer.
    rewrite (script_unsupported a m img 224); try reflexivity; discriminate.
  - reflexivity.
  - unfold PlantBot.classify_image, PlantBot.infer.
    rewrite run_type_mismatch; [reflexivity|].
    rewrite bot_tensor_dtype. simpl. discriminate.
Qed.

(** C8 (as the code has it).  The image is resized to the input size before
    it is converted, whatever its dimensions, so its dimensions never make
    the inference fail.  With a supported input dtype the inference returns
    the output of the model when the shape the model declares is
    1 x S x S x 3 (S being 224 in the bot, the second declared dimension in
    the script), and otherwise fails in set_tensor with a mismatch of
    dimensions, no output being produced. *)
Theorem image_size_never_mismatches
        (ext : Externals) (a : Predict.args) (m : Interpreter) (img : Image)
        (size : nat) :
  input_dtype m = uint8 \/ input_dtype m = float32 ->
  nth_error (input_shape m) 1 = Some size ->
  (input_shape m = [1; 224; 224; 3] ->
   PlantBot.infer m img
   = Ok (forward m (data (PlantBot.input_tensor m img)))) /\
  (input_shape m <> [1; 224; 224; 3] ->
   PlantBot.infer m img = Raise TensorShapeMismatch) /\
  (input_shape m = [1; size; size; 3] ->
   exists x,
     Predict.load_input a m img = Ok x /\
     Predict.infer a m img = Ok (forward m (data x))) /\
  (input_shape m <> [1; size; size; 3] ->
   Predict.infer a m img = Raise TensorShapeMismatch).
Proof.
  intros Hd Hs.
  pose proof (bot_tensor_supported m img Hd) as Hbd.
  pose proof (bot_tensor_shape m img) as Hbs.
  destruct (script_tensor a m img size Hd Hs) as [x [Hx [Hxs Hxd]]].
  split; [|split; [|split]].
  - intros E. apply run_ok; congruence.
  - intros E. apply run_shape_mismatch; congruence.
  - intros E. exists x. split; [exact Hx|].
    unfold Predict.infer. rewrite Hx. cbn [bind]. apply run_ok; congruence.
  - intros E. unfold Predict.infer. rewrite Hx. cbn [bind].
    apply run_shape_mismatch; congruence.
Qed.

Lemma image_size_never_mismatches_witness :
  let m := mkInterpreter [1; 224; 224; 3] uint8
                         (fun _ => [7/10; 2/10; 1/10]%R) in
  let img := mkImage 4 2 (repeat 255%N 24) in
  let a := Predict.mkArgs None (1/4) 1 1 in
  PlantBot.infer (ext := nearest_neighbour) m img = Ok [7/10; 2/10; 1/10]%R /\
  exists x,
    Predict.load_input (ext := nearest_neighbour) a m img = Ok x /\
    Predict.infer (ext := nearest_neighbour) a m img = Ok [7/10; 2/10; 1/10]%R.
Proof.
  intros m img a.
  destruct (image_size_never_mismatches nearest_neighbour a m img 224)
    as [Hbot [_ [Hscript _]]].
  - left. reflexivity.
  - reflexivity.
  - split; [exact (Hbot eq_refl)|]. exact (Hscript eq_refl).
Defined.

(** C8, on a photo of 4 x 2 pixels and a model that declares
    1 x 224 x 224 x 3: the bot and the script both return the output of the
    model. *)
Lemma wrong_size_image_is_classified :
  let m := mkInterpreter [1; 224; 224; 3] uint8
                         (fun _ => [7/10; 2/10; 1/10]%R) in
  let img := mkImage 4 2 (repeat 255%N 24) in
  let a := Predict.mkArgs None (1/4) 1 1 in
  (width img, height img) <> (224, 224) /\
  PlantBot.infer (ext := nearest_neighbour) m img = Ok [7/10; 2/10; 1/10]%R /\
  Predict.infer (ext := nearest_neighbour) a m img = Ok [7/10; 2/10; 1/10]%R /\
  PlantBot.infer (ext := nearest_neighbour) m img <> Raise TensorShapeMismatch /\
  Predict.infer (ext := nearest_neighbour) a m img <> Raise TensorShapeMismatch.
Proof.
  intros m img a.
  assert (PlantBot.infer (ext := nearest_neighbour) m img
          = Ok [7/10; 2/10; 1/10]%R) as Hbot.
  { unfold PlantBot.infer.
    rewrite run_ok; [reflexivity | | apply bot_tensor_shape].
    apply bot_tensor_supported. now left. }
  assert (Predict.infer (ext := nearest_neighbour) a m img
          = Ok [7/10; 2/10; 1/10]%R) as Hscript.
  { destruct (script_tensor (ext := nearest_neighbour) a m img 224)
      as [x [Hx [Hxs Hxd]]]; [now left | reflexivity |].
    unfold Predict.infer. rewrite Hx. cbn [bind].
    rewrite run_ok; [reflexivity | exact Hxd | exact Hxs]. }
  split; [discriminate|]. split; [exact Hbot|]. split; [exact Hscript|].
  rewrite Hbot, Hscript. split; discriminate.
Qed.

(** ** The confidence post-processor *)

(** C1 (as the code has it).  With temperature 1.0 and no preferred
    substring (or boost 0.0), the post-processor returns the input array
    divided by its sum, line 82 running in every case: for a positive sum the
    ranking is that of the raw array, and the values are those of the raw
    array when it sums to 1. *)
Theorem postprocess_identity_up_to_sum
        (a : Predict.args) (classes : list Py.str) (output : list R) :
  Predict.temp a = 1%R ->
  Predict.prefer a = None \/ Predict.boost a = 0%R ->
  length classes = length output ->
  (0 < NP.sum output)%R ->
  let scaled := map (fun x => (x / NP.sum output)%R) output in
  Predict.postprocess a classes output = Ok scaled /\
  (forall k, NP.top_k k scaled = NP.top_k k output) /\
  NP.argmax scaled = NP.argmax output /\
  (NP.sum output = 1%R -> scaled = output).
Proof.
  intros Ht Hb Hlen Hsum scaled. split; [|split; [|split]].
  - rewrite postprocess_unstaged by assumption. apply vdiv_ok. lra.
  - intros k. now apply top_k_div.
  - now apply argmax_div.
  - intros H1. subst scaled. rewrite H1.
    rewrite <- (map_id output) at 2. apply map_ext. intros x. field.
Qed.

Lemma postprocess_identity_up_to_sum_witness :
  let output := [7/10; 2/10; 1/10]%R in
  let scaled := map (fun x => (x / NP.sum output)%R) output in
  Predict.postprocess (Predict.mkArgs None (1/4) 1 1)
    [Py.lit "rose"; Py.lit "cactus"; Py.lit "fern"] output = Ok scaled /\
  (forall k, NP.top_k k scaled = NP.top_k k output) /\
  NP.argmax scaled = NP.argmax output /\
  (NP.sum output = 1%R -> scaled = output).
Proof.
  apply (postprocess_identity_up_to_sum
           (Predict.mkArgs None (1/4) 1 1)
           [Py.lit "rose"; Py.lit "cactus"; Py.lit "fern"]
           [7/10; 2/10; 1/10]%R).
  - reflexivity.
  - left. reflexivity.
  - reflexivity.
  - simpl. lra.
Defined.

(** C1, on the array [1/2, 1/4], which a model is free to return: with
    temperature 1.0 and no preferred substring the values come out as
    [2/3, 1/3]. *)
Lemma unstaged_values_change :
  Predict.postprocess (Predict.mkArgs None (1/4) 1 1)
    [Py.lit "rose"; Py.lit "cactus"] [1/2; 1/4]%R
  = Ok [2/3; 1/3]%R /\
  Predict.postprocess (Predict.mkArgs None (1/4) 1 1)
    [Py.lit "rose"; Py.lit "cactus"] [1/2; 1/4]%R
  <> Ok [1/2; 1/4]%R.
Proof.
  assert (Predict.postprocess (Predict.mkArgs None (1/4) 1 1)
            [Py.lit "rose"; Py.lit "cactus"] [1/2; 1/4]%R
          = Ok [2/3; 1/3]%R) as E.
  { rewrite postprocess_unstaged; [|reflexivity | now left | reflexivity].
    rewrite vdiv_ok by (simpl; lra). simpl.
    apply f_equal. apply f_equal2; [field | apply f_equal2; [field | reflexivity]]. }
  split; [exact E|]. rewrite E. intros H. injection H as H _. lra.
Qed.










(** C5.  The array [0.7, 0.2, 0.1] with the labels rose, cactus, fern, at
    temperature 1.0: with no boost the array is returned as it is and the
    first result is (rose, 0.7); with the preferred substring cactus and
    boost 0.5 the boosted array is [0.7, 0.3, 0.1], it is renormalised to
    [7/11, 3/11, 1/11], within 0.001 of [0.636, 0.273, 0.091], and rose is
    still first. *)
Theorem rose_cactus_fern :
  let rose := Py.lit "rose" in
  let cactus := Py.lit "cactus" in
  let fern := Py.lit "fern" in
  let classes := [rose; cactus; fern] in
  let output := [7/10; 2/10; 1/10]%R in
  let plain := Predict.mkArgs None (1/4) 1 1 in
  let boosted := Predict.mkArgs (Some cactus) (1/2) 1 1 in
  let renormalised := [7/11; 3/11; 1/11]%R in
  Predict.postprocess plain classes output = Ok output /\
  Predict.display classes output
    = Ok (Predict.mkReport
            [(rose, 7/10); (cactus, 2/10); (fern, 1/10)]%R (rose, 7/10)%R) /\
  Predict.boost_stage (Predict.prefer boosted) (Predict.boost boosted)
                      classes output = Ok [7/10; 3/10; 1/10]%R /\
  Predict.postprocess boosted classes output = Ok renormalised /\
  Forall2 (fun x y => Rabs (x - y) <= 1/1000)%R
          renormalised [636/1000; 273/1000; 91/1000]%R /\
  Predict.display classes renormalised
    = Ok (Predict.mkReport
            [(rose, 7/11); (cactus, 3/11); (fern, 1/11)]%R (rose, 7/11)%R).
Proof.
  intros rose cactus fern classes output plain boosted renormalised.
  split; [|split; [|split; [|split; [|split]]]].
  - subst plain. rewrite postprocess_unstaged; [|reflexivity | now left | reflexivity].
    rewrite vdiv_ok by (simpl; lra). subst output. simpl.
    apply f_equal. apply f_equal2; [field|].
    apply f_equal2; [field|]. apply f_equal2; [field | reflexivity].
  - unfold Predict.display, NP.top_k, NP.last_k, NP.argsort, NP.argmax.
    subst output. np_eval. reflexivity.
  - exact cactus_boosted.
  - exact cactus_renormalised.
  - subst renormalised.
    constructor; [apply Rabs_le; lra|].
    constructor; [apply Rabs_le; lra|].
    constructor; [apply Rabs_le; lra|]. constructor.
  - unfold Predict.display, NP.top_k, NP.last_k, NP.argsort, NP.argmax.
    subst renormalised. np_eval. reflexivity.
Qed.

(** ** The serial exchange *)





(** C10.  A reply that decodes to whitespace only is stripped to the empty
    text: the watering command reports it as done with no serial response
    (silence), the status command as no response. *)
Theorem whitespace_reply_is_silence
        (s : PlantBot.Serial) (raw : list byte) (t : Py.str) :
  PlantBot.is_open s = true ->
  Py.decode Py.ignore raw = Ok t ->
  Forall (fun c => Py.isspace c = true) t ->
  PlantBot.reply_text raw = Ok [] /\
  PlantBot.classify [] = PlantBot.Silence /\
  (exists s',
     PlantBot.water (Some s) raw =
       Ok ([PlantBot.WATERING_STARTED; PlantBot.DONE_NO_RESPONSE], Some s')) /\
  (exists s',
     PlantBot.status (Some s) raw =
       Ok ([PlantBot.REQUESTING;
            [0x1F4CA; 0x20]%N ++ PlantBot.NO_RESPONSE], Some s')).
Proof.
  intros Hopen Hdec Hblank.
  assert (PlantBot.reply_text raw = Ok []) as Hreply.
  { unfold PlantBot.reply_text. rewrite Hdec. simpl.
    now rewrite (strip_blank t Hblank). }
  split; [exact Hreply|]. split; [reflexivity|]. split.
  - rewrite (open_port_water s raw Hopen), Hreply. eexists. reflexivity.
  - rewrite (open_port_status s raw Hopen), Hreply. eexists. reflexivity.
Qed.

Lemma whitespace_reply_is_silence_witness :
  PlantBot.reply_text [x20; x0d; x0a] = Ok [] /\
  PlantBot.classify [] = PlantBot.Silence /\
  (exists s',
     PlantBot.water (Some (PlantBot.mkSerial true [] [])) [x20; x0d; x0a] =
       Ok ([PlantBot.WATERING_STARTED; PlantBot.DONE_NO_RESPONSE], Some s')) /\
  (exists s',
     PlantBot.status (Some (PlantBot.mkSerial true [] [])) [x20; x0d; x0a] =
       Ok ([PlantBot.REQUESTING;
            [0x1F4CA; 0x20]%N ++ PlantBot.NO_RESPONSE], Some s')).
Proof.
  apply (whitespace_reply_is_silence
           (PlantBot.mkSerial true [] []) [x20; x0d; x0a] [0x20; 0x0D; 0x0A]%N).
  - reflexivity.
  - reflexivity.
  - repeat constructor.
Defined.

(** * Further properties of the code *)

(** ** Escaping for MarkdownV2 *)

Lemma flat_map_flat_map {A B C : Type} (f : A -> list B) (g : B -> list C)
      (l : list A) :
  flat_map g (flat_map f l) = flat_map (fun a => flat_map g (f a)) l.
Proof.
  induction l as [|a l IH]; simpl; [reflexivity|].
  now rewrite flat_map_app, IH.
Qed.

(** Replacing the characters of [chars] one after the other is one pass over
    the text, provided no character is listed twice and the backslash is not
    listed. *)
Lemma replace_each_one_pass (chars : Py.str) :
  NoDup chars -> ~ In 0x5C%N chars ->
  forall t,
    fold_left (fun t ch => PlantBot.replace_char ch [0x5C; ch]%N t) chars t
    = flat_map (fun c => if existsb (N.eqb c) chars then [0x5C; c]%N else [c]) t.
Proof.
  induction chars as [|ch chars IH]; intros Hnd Hbs t; simpl.
  - induction t as [|c t IHt]; simpl; [reflexivity | now rewrite <- IHt].
  - inversion Hnd as [|x l Hch Hnd']; subst.
    rewrite IH; [|exact Hnd' | intros H; apply Hbs; now right].
    unfold PlantBot.replace_char. rewrite flat_map_flat_map.
    apply flat_map_ext. intros c.
    destruct (N.eqb_spec c ch) as [-> | Hne]; simpl.
    + assert (existsb (N.eqb 0x5C%N) chars = false) as E1.
      { apply not_true_is_false. intros H. apply existsb_exists in H.
        destruct H as [x [Hx Hxe]]. apply N.eqb_eq in Hxe. subst x.
        apply Hbs. now right. }
      assert (existsb (N.eqb ch) chars = false) as E2.
      { apply not_true_is_false. intros H. apply existsb_exists in H.
        destruct H as [x [Hx Hxe]]. apply N.eqb_eq in Hxe. subst x.
        contradiction. }
      now rewrite E1, E2.
    + now rewrite app_nil_r.
Qed.

Lemma NoDup_SPECIALS : NoDup PlantBot.SPECIALS.
Proof.
  apply (NoDup_count_occ' N.eq_dec).
  intros x Hx. cbv in Hx.
  repeat (destruct Hx as [<- | Hx]; [reflexivity|]). contradiction.
Qed.

Lemma esc_flat_map (t : Py.str) : PlantBot.esc t = flat_map esc_char t.
Proof.
  unfold PlantBot.esc. rewrite replace_each_one_pass.
  - reflexivity.
  - exact NoDup_SPECIALS.
  - cbv. intuition discriminate.
Qed.

Lemma esc_cons (c : N) (t : Py.str) :
  PlantBot.esc (c :: t) = esc_char c ++ PlantBot.esc t.
Proof. now rewrite !esc_flat_map. Qed.

Lemma esc_head_not_special (t : Py.str) (c : N) (rest : Py.str) :
  PlantBot.esc t = c :: rest -> special c = false.
Proof.
  destruct t as [|a t]; rewrite ?esc_cons.
  - rewrite esc_flat_map. discriminate.
  - unfold esc_char. destruct (special a) eqn:E; simpl; intros H;
      injection H as <- _; [reflexivity | exact E].
Qed.

(** X1.  [esc] is one pass over the text: each of the 19 characters listed
    gets one backslash before it, and every other character, the backslash
    included, is left as it is.  The replacements, made one character after
    the other, never touch what an earlier one inserted. *)
Theorem esc_one_pass (t : Py.str) :
  PlantBot.esc t = flat_map esc_char t /\
  length (PlantBot.esc t) = length t + length (filter special t).
Proof.
  split; [apply esc_flat_map|].
  rewrite esc_flat_map. induction t as [|c t IH]; simpl; [reflexivity|].
  rewrite length_app, IH. unfold esc_char.
  destruct (special c); simpl; lia.
Qed.

(** X2.  In an escaped text every special character stands right after a
    backslash. *)
Theorem esc_specials_follow_backslash (t pre post : Py.str) (c : N) :
  PlantBot.esc t = pre ++ c :: post ->
  special c = true ->
  exists pre', pre = pre' ++ [0x5C%N].
Proof.
  revert pre. induction t as [|a t IH]; intros pre H Hc.
  - rewrite esc_flat_map in H. destruct pre; discriminate.
  - rewrite esc_cons in H. unfold esc_char in H.
    destruct (special a) eqn:Ea; simpl in H.
    + destruct pre as [|p0 [|p1 pre]]; simpl in H.
      * injection H as <- _. discriminate.
      * injection H as <- <- _. now exists [].
      * injection H as <- <- H. destruct (IH pre H Hc) as [pre' ->].
        now exists (0x5C%N :: a :: pre').
    + destruct pre as [|p0 pre]; simpl in H.
      * injection H as <- _. congruence.
      * injection H as <- H. destruct (IH pre H Hc) as [pre' ->].
        now exists (a :: pre').
Qed.

Lemma esc_specials_follow_backslash_witness :
  exists pre', Py.lit "a\" = pre' ++ [0x5C%N].
Proof.
  apply (esc_specials_follow_backslash
           (Py.lit "a_b") (Py.lit "a\") (Py.lit "b") 0x5F%N).
  - reflexivity.
  - reflexivity.
Defined.

Lemma unesc_pair (b c : N) (t : Py.str) :
  unesc (b :: c :: t)
  = if ((b =? 0x5C)%N && special c)%bool then c :: unesc t
    else b :: unesc (c :: t).
Proof. reflexivity. Qed.

Lemma unesc_esc (t : Py.str) : unesc (PlantBot.esc t) = t.
Proof.
  induction t as [|a t IH]; [now rewrite esc_flat_map|].
  rewrite esc_cons. unfold esc_char. destruct (special a) eqn:Ea.
  - change ([0x5C%N; a] ++ PlantBot.esc t)
      with (0x5C%N :: a :: PlantBot.esc t).
    rewrite unesc_pair, Ea, N.eqb_refl. cbn [andb]. now rewrite IH.
  - change ([a] ++ PlantBot.esc t) with (a :: PlantBot.esc t).
    destruct (PlantBot.esc t) as [|c rest] eqn:E.
    + cbn [unesc] in *. now rewrite <- IH.
    + rewrite unesc_pair, (esc_head_not_special t c rest E), andb_false_r.
      now rewrite IH.
Qed.

(** X3.  [esc] loses nothing: two texts that escape to the same text are the
    same text. *)
Theorem esc_injective (t1 t2 : Py.str) :
  PlantBot.esc t1 = PlantBot.esc t2 -> t1 = t2.
Proof.
  intros H. rewrite <- (unesc_esc t1), <- (unesc_esc t2). now rewrite H.
Qed.

Lemma esc_injective_witness : Py.lit "1.5%" = Py.lit "1.5%".
Proof. apply (esc_injective (Py.lit "1.5%") (Py.lit "1.5%")). reflexivity. Defined.

(** ** Stripping and the label file *)

Lemma lstrip_decompose (s : Py.str) :
  exists ws, s = ws ++ Py.lstrip s /\ blank ws.
Proof.
  induction s as [|c s [ws [E Hws]]]; simpl.
  - exists []. split; [reflexivity | constructor].
  - destruct (Py.isspace c) eqn:Ec.
    + exists (c :: ws). split; [simpl; now rewrite <- E | now constructor].
    + exists []. split; [reflexivity | constructor].
Qed.

Lemma lstrip_head (s : Py.str) (c : N) (rest : Py.str) :
  Py.lstrip s = c :: rest -> Py.isspace c = false.
Proof.
  induction s as [|a s IH]; simpl; [discriminate|].
  destruct (Py.isspace a) eqn:Ea; [exact IH|].
  intros H. injection H as <- _. exact Ea.
Qed.

Lemma lstrip_app_solid (pre : Py.str) (c : N) (x : Py.str) :
  Py.isspace c = false ->
  Py.lstrip (pre ++ c :: x) = Py.lstrip pre ++ c :: x.
Proof.
  intros Hc. induction pre as [|p pre IH]; simpl.
  - now rewrite Hc.
  - destruct (Py.isspace p); [exact IH | reflexivity].
Qed.

Lemma rstrip_app_solid (x : Py.str) (c : N) (post : Py.str) :
  Py.isspace c = false ->
  Py.rstrip (x ++ c :: post) = x ++ c :: Py.rstrip post.
Proof.
  intros Hc. unfold Py.rstrip. rewrite rev_app_distr. simpl.
  rewrite <- app_assoc. simpl. rewrite lstrip_app_solid by exact Hc.
  rewrite rev_app_distr. simpl. rewrite rev_involutive, <- app_assoc.
  reflexivity.
Qed.

Lemma rstrip_decompose (s : Py.str) :
  exists ws, s = Py.rstrip s ++ ws /\ blank ws.
Proof.
  unfold Py.rstrip. destruct (lstrip_decompose (rev s)) as [ws [E Hws]].
  exists (rev ws). split.
  - rewrite <- rev_app_distr, <- E. now rewrite rev_involutive.
  - unfold blank in *. rewrite Forall_forall in *.
    intros c Hc. apply Hws. now apply in_rev.
Qed.

Lemma rstrip_last (s : Py.str) (c : N) (init : Py.str) :
  Py.rstrip s = init ++ [c] -> Py.isspace c = false.
Proof.
  unfold Py.rstrip. intros H.
  apply (f_equal (@rev N)) in H. rewrite rev_involutive, rev_app_distr in H.
  simpl in H. exact (lstrip_head _ _ _ H).
Qed.

Lemma rstrip_keeps_head (s : Py.str) (c : N) (rest : Py.str) :
  Py.isspace c = false -> exists rest', Py.rstrip (c :: s) = c :: rest'.
Proof.
  intros Hc. exists (Py.rstrip s). exact (rstrip_app_solid [] c s Hc).
Qed.

(** [strip] takes whitespace off both ends and nothing else. *)
Lemma strip_decompose (s : Py.str) :
  exists ws1 ws2,
    s = ws1 ++ Py.strip s ++ ws2 /\ blank ws1 /\ blank ws2 /\
    trimmed (Py.strip s).
Proof.
  destruct (lstrip_decompose s) as [ws1 [E1 H1]].
  destruct (rstrip_decompose (Py.lstrip s)) as [ws2 [E2 H2]].
  exists ws1, ws2. unfold Py.strip. split; [|split; [|split]].
  - rewrite <- E2. exact E1.
  - exact H1.
  - exact H2.
  - split.
    + intros c rest H. destruct (Py.lstrip s) as [|a l] eqn:El.
      * discriminate H.
      * pose proof (lstrip_head s a l El) as Ha.
        destruct (rstrip_keeps_head l a l Ha) as [rest' Er].
        rewrite Er in H. injection H as <- _. exact Ha.
    + intros c init H. exact (rstrip_last _ _ _ H).
Qed.

Lemma strip_trimmed (t : Py.str) : trimmed t -> Py.strip t = t.
Proof.
  intros [Hhead Hlast]. unfold Py.strip.
  assert (Py.lstrip t = t) as El.
  { destruct t as [|c t]; [reflexivity|]. simpl.
    now rewrite (Hhead c t eq_refl). }
  rewrite El. destruct t as [|a t']; [reflexivity|].
  destruct (exists_last (l := a :: t') ltac:(discriminate)) as [init [c E]].
  rewrite E. rewrite (rstrip_app_solid init c []); [reflexivity|].
  exact (Hlast c init E).
Qed.

Lemma In_load_labels (lines : list Py.str) (lbl : Py.str) :
  In lbl (load_labels lines) <->
  exists ln, In ln lines /\ Py.strip ln = lbl /\ lbl <> [].
Proof.
  unfold load_labels. rewrite in_map_iff. split.
  - intros [ln [E Hin]]. apply filter_In in Hin. destruct Hin as [Hin Hne].
    exists ln. repeat split; try assumption.
    subst lbl. destruct (Py.strip ln); [discriminate | discriminate].
  - intros [ln [Hin [E Hne]]]. exists ln. split; [exact E|].
    apply filter_In. split; [exact Hin|]. rewrite E.
    destruct lbl; [contradiction | reflexivity].
Qed.

Lemma load_labels_app (l1 l2 : list Py.str) :
  load_labels (l1 ++ l2) = load_labels l1 ++ load_labels l2.
Proof. unfold load_labels. now rewrite filter_app, map_app. Qed.

Lemma load_labels_cons (ln : Py.str) (lines : list Py.str) :
  load_labels (ln :: lines)
  = match Py.strip ln with
    | [] => load_labels lines
    | _ :: _ => Py.strip ln :: load_labels lines
    end.
Proof.
  unfold load_labels. cbn [filter]. destruct (Py.strip ln) eqn:E.
  - reflexivity.
  - cbn [map]. now rewrite E.
Qed.

Lemma load_labels_solid (lines : list Py.str) :
  Forall (fun ln => ln <> [] /\ trimmed ln) lines -> load_labels lines = lines.
Proof.
  induction 1 as [|ln lines [Hne Htr] _ IH]; [reflexivity|].
  rewrite load_labels_cons, (strip_trimmed ln Htr), IH.
  destruct ln; [contradiction | reflexivity].
Qed.

(** X4.  Every class name read from the label file is a line of the file,
    stripped; it is not empty and has no whitespace at either end. *)
Theorem loaded_labels_are_clean (lines : list Py.str) (lbl : Py.str) :
  In lbl (load_labels lines) ->
  lbl <> [] /\ trimmed lbl /\ exists ln, In ln lines /\ lbl = Py.strip ln.
Proof.
  intros H. apply In_load_labels in H. destruct H as [ln [Hin [E Hne]]].
  split; [exact Hne|]. split.
  - subst lbl. destruct (strip_decompose ln) as [ws1 [ws2 [_ [_ [_ Ht]]]]].
    exact Ht.
  - exists ln. split; [exact Hin | now symmetry].
Qed.

Lemma loaded_labels_are_clean_witness :
  Py.lit "aloe vera" <> [] /\ trimmed (Py.lit "aloe vera") /\
  exists ln,
    In ln [Py.lit "  aloe vera "; Py.lit "  "; Py.lit "fern"] /\
    Py.lit "aloe vera" = Py.strip ln.
Proof.
  apply (loaded_labels_are_clean
           [Py.lit "  aloe vera "; Py.lit "  "; Py.lit "fern"]
           (Py.lit "aloe vera")).
  left. reflexivity.
Defined.

(** X5.  A line of whitespace only takes no index: the classes after it are
    numbered as if the line were not there. *)
Theorem blank_line_takes_no_index (l1 l2 : list Py.str) (ws : Py.str) :
  blank ws ->
  load_labels (l1 ++ ws :: l2) = load_labels (l1 ++ l2).
Proof.
  intros H. rewrite !load_labels_app, load_labels_cons.
  now rewrite (strip_blank ws H).
Qed.

Lemma blank_line_takes_no_index_witness :
  load_labels ([Py.lit "rose"] ++ Py.lit "  " :: [Py.lit "fern"])
  = load_labels ([Py.lit "rose"] ++ [Py.lit "fern"]).
Proof.
  apply (blank_line_takes_no_index [Py.lit "rose"] [Py.lit "fern"] (Py.lit "  ")).
  repeat constructor.
Defined.

(** X6.  Loading is idempotent: the class names that were loaded, written one
    per line, load back as they are. *)
Theorem load_labels_idempotent (lines : list Py.str) :
  load_labels (load_labels lines) = load_labels lines.
Proof.
  apply load_labels_solid. apply Forall_forall. intros lbl H.
  apply In_load_labels in H. destruct H as [ln [_ [E Hne]]].
  split; [exact Hne|]. subst lbl.
  destruct (strip_decompose ln) as [ws1 [ws2 [_ [_ [_ Ht]]]]]. exact Ht.
Qed.

(** ** Replies on the serial port *)

Lemma decode_from_char (h : Py.errors) (b : N) (r : list N) (c : N) (w : nat) :
  Py.utf8_scan (b :: r) = Py.Char c w ->
  Py.decode_from h 0 (b :: r)
  = (t <- Py.decode_from h (pred w) r ;; Ok (c :: t)).
Proof.
  intros H.
  change (Py.decode_from h 0 (b :: r))
    with (match Py.utf8_scan (b :: r) with
          | Py.Char c' w' => t <- Py.decode_from h (pred w') r ;; Ok (c' :: t)
          | Py.Invalid w' =>
            match h with
            | Py.strict => Raise UnicodeDecodeError
            | Py.ignore => Py.decode_from h (pred w') r
            | Py.replace =>
              t <- Py.decode_from h (pred w') r ;; Ok (0xFFFD%N :: t)
            end
          end).
  now rewrite H.
Qed.

Lemma decode_from_invalid (b : N) (r : list N) (w : nat) :
  Py.utf8_scan (b :: r) = Py.Invalid w ->
  Py.decode_from Py.ignore 0 (b :: r) = Py.decode_from Py.ignore (pred w) r.
Proof.
  intros H.
  change (Py.decode_from Py.ignore 0 (b :: r))
    with (match Py.utf8_scan (b :: r) with
          | Py.Char c' w' =>
            t <- Py.decode_from Py.ignore (pred w') r ;; Ok (c' :: t)
          | Py.Invalid w' => Py.decode_from Py.ignore (pred w') r
          end).
  now rewrite H.
Qed.

Lemma utf8_scan_ascii (b : N) (r : list N) :
  (b < 0x80)%N -> Py.utf8_scan (b :: r) = Py.Char b 1.
Proof.
  intros H. unfold Py.utf8_scan.
  now replace (b <? 0x80)%N with true by (symmetry; now apply N.ltb_lt).
Qed.

(** ASCII bytes decode to themselves, whatever the error handler. *)
Lemma decode_from_ascii (h : Py.errors) (bs : list N) :
  ascii bs -> Py.decode_from h 0 bs = Ok bs.
Proof.
  induction 1 as [|b bs Hb _ IH]; [reflexivity|].
  rewrite (decode_from_char h b bs b 1 (utf8_scan_ascii b bs Hb)).
  simpl pred. now rewrite IH.
Qed.

Lemma decode_from_ascii_app (m rest : list N) (t : Py.str) :
  ascii m -> Py.decode_from Py.ignore 0 rest = Ok t ->
  Py.decode_from Py.ignore 0 (m ++ rest) = Ok (m ++ t).
Proof.
  intros Hm Ht. induction Hm as [|b m Hb _ IH]; [exact Ht|].
  simpl app.
  rewrite (decode_from_char Py.ignore b (m ++ rest) b 1
             (utf8_scan_ascii b (m ++ rest) Hb)).
  simpl pred. now rewrite IH.
Qed.

(** Neither a decoded sequence nor an error range reaches an ASCII byte
    that follows. *)
Lemma utf8_scan_stops_at_ascii (pre : list N) (a : N) (rest : list N) :
  pre <> [] -> (a < 0x80)%N ->
  match Py.utf8_scan (pre ++ a :: rest) with
  | Py.Char _ w | Py.Invalid w => 1 <= w <= length pre
  end.
Proof.
  intros Hpre Ha.
  assert (Py.is_continuation a = false) as Hc.
  { unfold Py.is_continuation. apply andb_false_iff. left.
    apply N.leb_gt. exact Ha. }
  destruct pre as [|b0 [|b1 [|b2 [|b3 pre]]]]; [contradiction | | | |];
    unfold Py.utf8_scan; cbn [app]; cbv beta iota; rewrite ?Hc;
    cbn [negb orb]; cbv beta iota;
    repeat match goal with
           | |- context [if ?c then _ else _] => destruct c
           end; cbn [length]; lia.
Qed.

Lemma decode_through_prefix (n : nat) :
  forall pre a rest t,
    length pre <= n -> (a < 0x80)%N ->
    Py.decode_from Py.ignore 0 (a :: rest) = Ok t ->
    exists t1, Py.decode_from Py.ignore 0 (pre ++ a :: rest) = Ok (t1 ++ t).
Proof.
  induction n as [|n IH]; intros pre a rest t Hn Ha Ht.
  - destruct pre; [|simpl in Hn; lia]. now exists [].
  - destruct pre as [|b pre]; [now exists []|].
    pose proof (utf8_scan_stops_at_ascii (b :: pre) a rest
                  ltac:(discriminate) Ha) as Hw.
    simpl app in *.
    destruct (Py.utf8_scan (b :: pre ++ a :: rest)) as [c w | w] eqn:Hscan;
      simpl in Hw, Hn;
      destruct (IH (skipn (pred w) pre) a rest t) as [t1 Ht1];
      try exact Ha; try exact Ht; try (rewrite length_skipn; lia).
    + exists (c :: t1).
      rewrite (decode_from_char _ _ _ _ _ Hscan), decode_from_skip.
      rewrite skipn_app.
      replace (pred w - length pre) with 0 by lia. simpl skipn at 2.
      now rewrite Ht1.
    + exists t1.
      rewrite (decode_from_invalid _ _ _ Hscan), decode_from_skip.
      rewrite skipn_app.
      replace (pred w - length pre) with 0 by lia. simpl skipn at 2.
      exact Ht1.
Qed.

(** A run of ASCII bytes in the bytes read is a run of the decoded text. *)
Lemma decode_keeps_ascii_run (pre m post : list N) :
  ascii m ->
  exists t, Py.decode_from Py.ignore 0 (pre ++ m ++ post) = Ok t /\
            Substring m t.
Proof.
  intros Hm.
  destruct (decode_ignore_kept (length post) post (le_n _)) as [t2 [_ [H2 _]]].
  pose proof (decode_from_ascii_app m post t2 Hm H2) as Hmp.
  destruct m as [|a m].
  - destruct (decode_ignore_kept (length (pre ++ post)) (pre ++ post) (le_n _))
      as [t [_ [Ht _]]].
    exists t. split; [exact Ht|]. now exists [], t.
  - inversion Hm as [|x l Ha Hm']; subst.
    destruct (decode_through_prefix (length pre) pre a (m ++ post) _
                (le_n _) Ha Hmp) as [t1 Ht1].
    exists (t1 ++ (a :: m) ++ t2). split; [exact Ht1|]. now exists t1, t2.
Qed.

Lemma strip_keeps_solid_run (m t : Py.str) (c d : N) (mid : Py.str) :
  m = c :: mid -> (exists init, m = init ++ [d]) ->
  Py.isspace c = false -> Py.isspace d = false ->
  Substring m t -> Substring m (Py.strip t).
Proof.
  intros Em [init Ei] Hc Hd [pre [post E]]. subst t. unfold Py.strip.
  assert (Py.lstrip (pre ++ m ++ post) = Py.lstrip pre ++ m ++ post) as E1.
  { rewrite Em. exact (lstrip_app_solid pre c (mid ++ post) Hc). }
  rewrite E1.
  assert (Py.rstrip (Py.lstrip pre ++ m ++ post)
          = Py.lstrip pre ++ m ++ Py.rstrip post) as E2.
  { rewrite Ei.
    replace (Py.lstrip pre ++ (init ++ [d]) ++ post)
      with ((Py.lstrip pre ++ init) ++ d :: post)
      by (rewrite <- !app_assoc; reflexivity).
    rewrite rstrip_app_solid by exact Hd.
    rewrite <- !app_assoc. reflexivity. }
  rewrite E2. now exists (Py.lstrip pre), (Py.rstrip post).
Qed.

(** X7.  The reply that a handler holds is the decoded text less the
    whitespace at its two ends: nothing inside is dropped, and the reply
    neither starts nor ends with whitespace. *)
Theorem reply_is_decoded_text_trimmed (raw : list byte) :
  exists t reply ws1 ws2,
    Py.decode Py.ignore raw = Ok t /\
    PlantBot.reply_text raw = Ok reply /\
    t = ws1 ++ reply ++ ws2 /\ blank ws1 /\ blank ws2 /\ trimmed reply.
Proof.
  destruct (decode_ignore_total raw) as [t [_ [Hd _]]].
  destruct (strip_decompose t) as [ws1 [ws2 [E [H1 [H2 Ht]]]]].
  exists t, (Py.strip t), ws1, ws2.
  unfold PlantBot.reply_text. rewrite Hd. cbn [bind].
  repeat (split; [first [reflexivity | assumption]|]). exact Ht.
Qed.

(** X8.  A reply of ASCII bytes is relayed as it is: the status command
    answers with the text of the bytes, stripped, when that is not empty. *)
Theorem ascii_reply_relayed (s : PlantBot.Serial) (raw : list byte) :
  PlantBot.is_open s = true ->
  ascii (map Byte.to_N raw) ->
  Py.strip (map Byte.to_N raw) <> [] ->
  PlantBot.reply_text raw = Ok (Py.strip (map Byte.to_N raw)) /\
  exists s',
    PlantBot.status (Some s) raw
    = Ok ([PlantBot.REQUESTING;
           [0x1F4CA; 0x20]%N ++ Py.strip (map Byte.to_N raw)], Some s').
Proof.
  intros Hopen Hascii Hne.
  assert (PlantBot.reply_text raw = Ok (Py.strip (map Byte.to_N raw))) as Hr.
  { unfold PlantBot.reply_text, Py.decode.
    now rewrite (decode_from_ascii Py.ignore _ Hascii). }
  split; [exact Hr|].
  rewrite (open_port_status s raw Hopen), Hr. eexists. cbn [bind].
  unfold PlantBot.status_message.
  destruct (Py.strip (map Byte.to_N raw)); [contradiction | reflexivity].
Qed.

Lemma ascii_reply_relayed_witness :
  PlantBot.reply_text (PlantBot.bytes_of "Moisture: 41% " ++ [x0d; x0a])
  = Ok (Py.strip (map Byte.to_N
                      (PlantBot.bytes_of "Moisture: 41% " ++ [x0d; x0a]))) /\
  exists s',
    PlantBot.status (Some (PlantBot.mkSerial true [] []))
                    (PlantBot.bytes_of "Moisture: 41% " ++ [x0d; x0a])
    = Ok ([PlantBot.REQUESTING;
           [0x1F4CA; 0x20]%N
             ++ Py.strip (map Byte.to_N
                              (PlantBot.bytes_of "Moisture: 41% " ++ [x0d; x0a]))],
          Some s').
Proof.
  apply (ascii_reply_relayed (PlantBot.mkSerial true [] [])
           (PlantBot.bytes_of "Moisture: 41% " ++ [x0d; x0a])).
  - reflexivity.
  - repeat constructor.
  - discriminate.
Defined.

(** X9.  When the bytes that arrive hold ACK:PUMP_DONE, the watering command
    reports the watering complete, whatever comes before and after the
    marker: other text, whitespace, or bytes that cannot be decoded. *)
Theorem ack_found_in_any_reply
        (s : PlantBot.Serial) (pre post : list byte) :
  PlantBot.is_open s = true ->
  exists s',
    PlantBot.water (Some s) (pre ++ PlantBot.bytes_of "ACK:PUMP_DONE" ++ post)
    = Ok ([PlantBot.WATERING_STARTED; PlantBot.WATERING_COMPLETE], Some s').
Proof.
  intros Hopen. rewrite (open_port_water s _ Hopen).
  destruct (decode_keeps_ascii_run (map Byte.to_N pre) PlantBot.ACK
                                   (map Byte.to_N post)) as [t [Hd Hsub]].
  { repeat constructor. }
  assert (PlantBot.reply_text
            (pre ++ PlantBot.bytes_of "ACK:PUMP_DONE" ++ post)
          = Ok (Py.strip t)) as Hr.
  { unfold PlantBot.reply_text, Py.decode. rewrite !map_app.
    change (map Byte.to_N (PlantBot.bytes_of "ACK:PUMP_DONE"))
      with PlantBot.ACK.
    now rewrite Hd. }
  rewrite Hr. cbn [bind]. eexists. unfold PlantBot.classify.
  replace (Py.contains PlantBot.ACK (Py.strip t)) with true; [reflexivity|].
  symmetry. apply contains_spec.
  apply (strip_keeps_solid_run PlantBot.ACK t 0x41%N 0x45%N
                               (Py.lit "CK:PUMP_DONE"));
    [reflexivity | now exists (Py.lit "ACK:PUMP_DON") | reflexivity
     | reflexivity | exact Hsub].
Qed.

Lemma ack_found_in_any_reply_witness :
  exists s',
    PlantBot.water (Some (PlantBot.mkSerial true [] []))
                   ([xff; x20] ++ PlantBot.bytes_of "ACK:PUMP_DONE" ++ [x0d; x0a])
    = Ok ([PlantBot.WATERING_STARTED; PlantBot.WATERING_COMPLETE], Some s').
Proof.
  apply (ack_found_in_any_reply (PlantBot.mkSerial true [] [])
                                [xff; x20] [x0d; x0a]).
  reflexivity.
Defined.

(** X10.  With no port, or a port that is closed, a command only sends the
    notice that the Arduino is not connected: nothing is written to the port
    and nothing is read from it. *)
Theorem closed_port_is_left_alone
        (ser : option PlantBot.Serial) (arrived : list byte) :
  match ser with
  | None => True
  | Some s => PlantBot.is_open s = false
  end ->
  PlantBot.water ser arrived = Ok ([PlantBot.NOT_CONNECTED], ser) /\
  PlantBot.status ser arrived = Ok ([PlantBot.NOT_CONNECTED], ser).
Proof.
  intros H. destruct ser as [s|]; [|split; reflexivity].
  unfold PlantBot.water, PlantBot.status. rewrite H. split; reflexivity.
Qed.

Lemma closed_port_is_left_alone_witness :
  PlantBot.water (Some (PlantBot.mkSerial false [x41] [])) [x42]
  = Ok ([PlantBot.NOT_CONNECTED], Some (PlantBot.mkSerial false [x41] [])) /\
  PlantBot.status (Some (PlantBot.mkSerial false [x41] [])) [x42]
  = Ok ([PlantBot.NOT_CONNECTED], Some (PlantBot.mkSerial false [x41] [])).
Proof.
  apply (closed_port_is_left_alone
           (Some (PlantBot.mkSerial false [x41] [])) [x42]).
  reflexivity.
Defined.

(** X11.  On an open port a command never fails, whatever bytes arrive: it
    sends two messages, the command line is written once, the input buffer
    is left empty, and the bytes that were in the buffer before the command
    have no part in the answer. *)
Theorem open_port_exchange (s : PlantBot.Serial) (arrived : list byte) :
  PlantBot.is_open s = true ->
  exists reply,
    PlantBot.reply_text arrived = Ok reply /\
    PlantBot.water (Some s) arrived
    = Ok ([PlantBot.WATERING_STARTED;
           PlantBot.water_message (PlantBot.classify reply)],
          Some (PlantBot.mkSerial true []
                  ((PlantBot.bytes_of "PUMP" ++ [x0a]) :: PlantBot.written s)))
    /\
    PlantBot.status (Some s) arrived
    = Ok ([PlantBot.REQUESTING; PlantBot.status_message reply],
          Some (PlantBot.mkSerial true []
                  ((PlantBot.bytes_of "STATUS" ++ [x0a]) :: PlantBot.written s))).
Proof.
  intros Hopen.
  destruct (reply_decoding_total arrived) as [reply Hr].
  exists reply. split; [exact Hr|].
  rewrite (open_port_water s arrived Hopen).
  rewrite (open_port_status s arrived Hopen).
  rewrite Hr. split; reflexivity.
Qed.

Lemma open_port_exchange_witness :
  exists reply,
    PlantBot.reply_text [xc3; x28; x4f; x4b] = Ok reply /\
    PlantBot.water (Some (PlantBot.mkSerial true [x41; x43; x4b] []))
                   [xc3; x28; x4f; x4b]
    = Ok ([PlantBot.WATERING_STARTED;
           PlantBot.water_message (PlantBot.classify reply)],
          Some (PlantBot.mkSerial true []
                  [PlantBot.bytes_of "PUMP" ++ [x0a]]))
    /\
    PlantBot.status (Some (PlantBot.mkSerial true [x41; x43; x4b] []))
                    [xc3; x28; x4f; x4b]
    = Ok ([PlantBot.REQUESTING; PlantBot.status_message reply],
          Some (PlantBot.mkSerial true []
                  [PlantBot.bytes_of "STATUS" ++ [x0a]])).
Proof.
  apply (open_port_exchange (PlantBot.mkSerial true [x41; x43; x4b] [])
                            [xc3; x28; x4f; x4b]).
  reflexivity.
Defined.

(** ** The most likely class *)

Lemma get_app_done (done v : list R) (x : R) :
  NP.get (done ++ x :: v) (length done) = x.
Proof. unfold NP.get. now rewrite nth_middle. Qed.

Lemma argmax_from_inv (w : list R) :
  forall v done best,
    w = done ++ v -> best < length done ->
    (forall j, j < length done -> (NP.get w j <= NP.get w best)%R) ->
    (forall j, j < best -> (NP.get w j < NP.get w best)%R) ->
    let r := NP.argmax_from v (length done) best (NP.get w best) in
    r < length w /\
    (forall j, j < length w -> (NP.get w j <= NP.get w r)%R) /\
    (forall j, j < r -> (NP.get w j < NP.get w r)%R).
Proof.
  induction v as [|x v IH]; intros done best Hw Hb Hle Hlt; simpl.
  - rewrite app_nil_r in Hw. subst w. auto.
  - assert (NP.get w (length done) = x) as Hx
        by (subst w; apply get_app_done).
    assert (w = (done ++ [x]) ++ v) as Hw'
        by (rewrite <- app_assoc; exact Hw).
    assert (length (done ++ [x]) = S (length done)) as Hl
        by (rewrite length_app; simpl; lia).
    destruct (NP.Rltb (NP.get w best) x) eqn:E.
    + apply Rltb_true in E.
      specialize (IH (done ++ [x]) (length done) Hw').
      rewrite Hl, Hx in IH. apply IH.
      * lia.
      * intros j Hj. destruct (Nat.eq_dec j (length done)) as [-> | Hne].
        -- rewrite Hx. lra.
        -- specialize (Hle j ltac:(lia)). lra.
      * intros j Hj. specialize (Hle j Hj). lra.
    + apply Rltb_false in E.
      specialize (IH (done ++ [x]) best Hw').
      rewrite Hl in IH. apply IH.
      * lia.
      * intros j Hj. destruct (Nat.eq_dec j (length done)) as [-> | Hne].
        -- now rewrite Hx.
        -- apply Hle. lia.
      * exact Hlt.
Qed.

Lemma argmax_first_greatest (v : list R) :
  v <> [] ->
  exists r,
    NP.argmax v = Ok r /\ r < length v /\
    (forall j, j < length v -> (NP.get v j <= NP.get v r)%R) /\
    (forall j, j < r -> (NP.get v j < NP.get v r)%R).
Proof.
  intros Hne. destruct v as [|x v]; [contradiction|].
  exists (NP.argmax_from v 1 0 x). split; [reflexivity|].
  apply (argmax_from_inv (x :: v) v [x] 0 eq_refl).
  - simpl. lia.
  - intros j Hj. simpl in Hj. replace j with 0 by lia. lra.
  - intros j Hj. lia.
Qed.

(** X12.  [np.argmax], line 92: on an array that is not empty the class
    reported as most likely has the greatest value, and is the first class
    with that value; on an empty array the call raises. *)
Theorem argmax_is_first_greatest (v : list R) :
  (v = [] -> NP.argmax v = Raise EmptySequence) /\
  (v <> [] ->
   exists r,
     NP.argmax v = Ok r /\ r < length v /\
     (forall j, j < length v -> (NP.get v j <= NP.get v r)%R) /\
     (forall j, j < r -> (NP.get v j < NP.get v r)%R)).
Proof.
  split; [intros ->; reflexivity | apply argmax_first_greatest].
Qed.

Lemma argmax_is_first_greatest_witness :
  exists r,
    NP.argmax [1/10; 7/10; 7/10]%R = Ok r /\ r < 3 /\
    (forall j, j < 3 ->
               (NP.get [1/10; 7/10; 7/10] j <= NP.get [1/10; 7/10; 7/10] r)%R) /\
    (forall j, j < r ->
               (NP.get [1/10; 7/10; 7/10] j < NP.get [1/10; 7/10; 7/10] r)%R).
Proof.
  apply (argmax_is_first_greatest [1/10; 7/10; 7/10]%R). discriminate.
Defined.

Lemma ranking_head_greatest (v : list R) (h : nat) (rest : list nat) :
  ranking v = h :: rest ->
  h < length v /\
  forall j, j < length v -> j <> h -> key_lt v j h.
Proof.
  intros E. pose proof (ranking_sorted v) as Hs. rewrite E in Hs.
  apply StronglySorted_inv in Hs. destruct Hs as [_ Hall].
  rewrite Forall_forall in Hall. split.
  - apply In_ranking. rewrite E. now left.
  - intros j Hj Hne. apply In_ranking in Hj. rewrite E in Hj.
    destruct Hj as [-> | Hj]; [contradiction | now apply Hall].
Qed.

Lemma ranking_nonempty (v : list R) :
  v <> [] -> exists h rest, ranking v = h :: rest.
Proof.
  intros Hne. destruct (ranking v) as [|h rest] eqn:E; [|now eexists; eexists].
  exfalso. assert (In 0 (ranking v)) as H.
  { apply In_ranking. destruct v; [contradiction | simpl; lia]. }
  now rewrite E in H.
Qed.



(** ** The temperature stage *)

Lemma insert_ext_in (v w : list R) (i : nat) (l : list nat) :
  (forall j, In j l ->
             NP.Rltb (NP.get v i) (NP.get v j)
             = NP.Rltb (NP.get w i) (NP.get w j)) ->
  NP.insert v i l = NP.insert w i l.
Proof.
  induction l as [|j l IH]; intros H; simpl; [reflexivity|].
  rewrite (H j (or_introl eq_refl)), IH; [reflexivity|].
  intros k Hk. apply H. now right.
Qed.

Lemma argsort_ext_in (v w : list R) :
  length v = length w ->
  (forall i j, i < length v -> j < length v ->
               NP.Rltb (NP.get v i) (NP.get v j)
               = NP.Rltb (NP.get w i) (NP.get w j)) ->
  NP.argsort v = NP.argsort w.
Proof.
  intros Hlen H. unfold NP.argsort. rewrite <- Hlen.
  assert (forall l acc,
             (forall x, In x l -> x < length v) ->
             (forall x, In x acc -> x < length v) ->
             fold_left (fun sorted i => NP.insert v i sorted) l acc
             = fold_left (fun sorted i => NP.insert w i sorted) l acc) as Hfold.
  { induction l as [|i l IH]; intros acc Hl Hacc; simpl; [reflexivity|].
    rewrite (insert_ext_in v w i acc).
    - apply IH.
      + intros x Hx. apply Hl. now right.
      + intros x Hx. apply In_insert in Hx. destruct Hx as [-> | Hx].
        * apply Hl. now left.
        * now apply Hacc.
    - intros j Hj. apply H; [apply Hl; now left | now apply Hacc]. }
  apply Hfold.
  - intros x Hx. apply in_seq in Hx. lia.
  - intros x [].
Qed.

Section Increasing.

Variable f : R -> R.
Variable P : R -> Prop.
Hypothesis f_increasing : forall a b, P a -> P b -> (a < b)%R -> (f a < f b)%R.

Lemma Rltb_increasing (a b : R) :
  P a -> P b -> NP.Rltb (f a) (f b) = NP.Rltb a b.
Proof.
  intros Ha Hb. destruct (NP.Rltb a b) eqn:E.
  - apply Rltb_true in E. apply Rltb_true. now apply f_increasing.
  - apply Rltb_false in E. apply Rltb_false.
    destruct E as [E | ->]; [|lra].
    apply Rlt_le. now apply f_increasing.
Qed.

(** An increasing function applied to every entry changes no rank. *)
Lemma argsort_map_increasing (v : list R) :
  Forall P v -> NP.argsort (map f v) = NP.argsort v.
Proof.
  intros Hall. apply argsort_ext_in; [apply length_map|].
  rewrite length_map. intros i j Hi Hj.
  rewrite !get_map by assumption.
  apply Rltb_increasing; now apply get_Forall.
Qed.

Lemma argmax_from_map_increasing (v : list R) :
  Forall P v ->
  forall i best best_val,
    P best_val ->
    NP.argmax_from (map f v) i best (f best_val)
    = NP.argmax_from v i best best_val.
Proof.
  induction 1 as [|x v Hx _ IH]; intros i best best_val Hb; simpl;
    [reflexivity|].
  rewrite Rltb_increasing by assumption.
  destruct (NP.Rltb best_val x); now apply IH.
Qed.

Lemma argmax_map_increasing (v : list R) :
  Forall P v -> NP.argmax (map f v) = NP.argmax v.
Proof.
  intros Hall. destruct Hall as [|x v Hx Hall]; simpl; [reflexivity|].
  now rewrite argmax_from_map_increasing.
Qed.

End Increasing.

Lemma temperature_entry_increasing (temp s a b : R) :
  (0 < temp)%R -> (0 < s)%R -> (0 <= a)%R -> (0 <= b)%R -> (a < b)%R ->
  (exp (ln (a + 1e-9) / temp) / s < exp (ln (b + 1e-9) / temp) / s)%R.
Proof.
  intros Ht Hs Ha Hb Hab.
  apply Rmult_lt_compat_r; [now apply Rinv_0_lt_compat|].
  apply exp_increasing.
  apply Rmult_lt_compat_r; [now apply Rinv_0_lt_compat|].
  apply ln_increasing; lra.
Qed.

(** Lines 68-71 at a temperature above 0: the entries are positive, sum to 1
    and keep their order. *)
Lemma temperature_keeps_order (temp : R) (output : list R) :
  (0 < temp)%R -> temp <> 1%R -> Forall (fun x => 0 <= x)%R output ->
  output <> [] ->
  exists v,
    Predict.temperature_stage temp output = Ok v /\
    length v = length output /\
    Forall (fun x => 0 < x)%R v /\ NP.sum v = 1%R /\
    NP.argsort v = NP.argsort output /\ NP.argmax v = NP.argmax output.
Proof.
  intros Ht H1 Hall Hne.
  set (e := map (fun x => exp (ln (x + 1e-9) / temp)) output).
  assert (0 < NP.sum e)%R as Hpos.
  { subst e. destruct output as [|x output]; [contradiction|].
    pose proof (sum_map_exp_pos (ln (x + 1e-9) / temp)
                  (map (fun x => ln (x + 1e-9) / temp)%R output)) as Hp.
    simpl in Hp. rewrite map_map in Hp. exact Hp. }
  exists (map (fun x => (x / NP.sum e)%R) e). split.
  { apply temperature_applied; [exact H1 | lra | exact Hall]. }
  split; [subst e; now rewrite !length_map|]. split.
  { apply Forall_forall. intros y Hy. apply in_map_iff in Hy.
    destruct Hy as [z [<- Hz]]. subst e. apply in_map_iff in Hz.
    destruct Hz as [u [<- _]].
    apply Rdiv_lt_0_compat; [apply exp_pos | exact Hpos]. }
  split.
  { rewrite sum_map_div. field. lra. }
  subst e. rewrite map_map in *. split.
  - apply (argsort_map_increasing
             (fun x => exp (ln (x + 1e-9) / temp) / NP.sum
                 (map (fun x => exp (ln (x + 1e-9) / temp)) output))%R
             (fun x => 0 <= x)%R); [|exact Hall].
    intros a b Ha Hb Hab. now apply temperature_entry_increasing.
  - apply (argmax_map_increasing
             (fun x => exp (ln (x + 1e-9) / temp) / NP.sum
                 (map (fun x => exp (ln (x + 1e-9) / temp)) output))%R
             (fun x => 0 <= x)%R); [|exact Hall].
    intros a b Ha Hb Hab. now apply temperature_entry_increasing.
Qed.

(** X14.  At a temperature other than 0 and 1, negative ones included, the
    temperature stage turns a non-negative array that is not empty into
    entries that are all above 0 and sum to 1: the 1e-9 added before the
    logarithm keeps a class of probability 0 from staying at 0. *)
Theorem temperature_gives_positive_shares (temp : R) (output : list R) :
  temp <> 0%R -> temp <> 1%R ->
  Forall (fun x => 0 <= x)%R output -> output <> [] ->
  exists v,
    Predict.temperature_stage temp output = Ok v /\
    length v = length output /\
    Forall (fun x => 0 < x)%R v /\ NP.sum v = 1%R.
Proof.
  intros H0 H1 Hall Hne.
  set (e := map (fun x => exp (ln (x + 1e-9) / temp))%R output).
  assert (0 < NP.sum e)%R as Hpos.
  { subst e. destruct output as [|x output]; [contradiction|].
    pose proof (sum_map_exp_pos (ln (x + 1e-9) / temp)
                  (map (fun x => ln (x + 1e-9) / temp)%R output)) as Hp.
    simpl in Hp. rewrite map_map in Hp. exact Hp. }
  exists (map (fun x => (x / NP.sum e)%R) e). split.
  { now apply temperature_applied. }
  split; [subst e; now rewrite !length_map|]. split.
  - apply Forall_forall. intros y Hy. apply in_map_iff in Hy.
    destruct Hy as [z [<- Hz]]. subst e. apply in_map_iff in Hz.
    destruct Hz as [u [<- _]].
    apply Rdiv_lt_0_compat; [apply exp_pos | exact Hpos].
  - rewrite sum_map_div. field. lra.
Qed.

Lemma temperature_gives_positive_shares_witness :
  exists v,
    Predict.temperature_stage (-2) [1; 0]%R = Ok v /\
    length v = 2 /\ Forall (fun x => 0 < x)%R v /\ NP.sum v = 1%R.
Proof.
  apply (temperature_gives_positive_shares (-2) [1; 0]%R).
  - lra.
  - lra.
  - repeat constructor; lra.
  - discriminate.
Defined.

(** X15.  With no preferred class, post-processing at any temperature above
    0 changes no rank: the top-K list and the class that argmax reports are
    those of the raw output of the model. *)
Theorem temperature_keeps_ranking
        (a : Predict.args) (classes : list Py.str) (output : list R) :
  Predict.prefer a = None \/ Predict.prefer a = Some [] ->
  (0 < Predict.temp a)%R ->
  Forall (fun x => 0 <= x)%R output ->
  Exists (fun x => x <> 0%R) output ->
  exists v,
    Predict.postprocess a classes output = Ok v /\
    (forall k, NP.top_k k v = NP.top_k k output) /\
    NP.argmax v = NP.argmax output.
Proof.
  intros Hp Ht Hall Hex.
  pose proof (sum_pos output Hall Hex) as Hsum.
  assert (exists v1,
             Predict.temperature_stage (Predict.temp a) output = Ok v1 /\
             (0 < NP.sum v1)%R /\
             NP.argsort v1 = NP.argsort output /\
             NP.argmax v1 = NP.argmax output) as [v1 [H1 [Hs1 [Ha1 Hm1]]]].
  { destruct (Req_dec_T (Predict.temp a) 1) as [E | E].
    - exists output. rewrite E, temperature_skipped. auto.
    - destruct (temperature_keeps_order (Predict.temp a) output)
        as [v1 [H1 [_ [_ [Hs [Ha Hm]]]]]]; try assumption.
      + intros ->. inversion Hex.
      + exists v1. rewrite Hs. repeat split; try assumption. lra. }
  exists (map (fun x => (x / NP.sum v1)%R) v1). split.
  - unfold Predict.postprocess. rewrite H1. cbn [bind].
    assert (Predict.boost_stage (Predict.prefer a) (Predict.boost a)
                                classes v1 = Ok v1) as Hb
        by (destruct Hp as [-> | ->]; reflexivity).
    rewrite Hb. cbn [bind]. apply vdiv_ok. lra.
  - split.
    + intros k. rewrite top_k_div by exact Hs1.
      unfold NP.top_k, NP.last_k. now rewrite Ha1.
    + now rewrite argmax_div.
Qed.

Lemma temperature_keeps_ranking_witness :
  exists v,
    Predict.postprocess (Predict.mkArgs None (1/4) (1/2) 1)
      [Py.lit "rose"; Py.lit "cactus"] [1/4; 3/4]%R = Ok v /\
    (forall k, NP.top_k k v = NP.top_k k [1/4; 3/4]%R) /\
    NP.argmax v = NP.argmax [1/4; 3/4]%R.
Proof.
  apply (temperature_keeps_ranking (Predict.mkArgs None (1/4) (1/2) 1)
           [Py.lit "rose"; Py.lit "cactus"] [1/4; 3/4]%R).
  - left. reflexivity.
  - simpl. lra.
  - repeat constructor; lra.
  - constructor. lra.
Defined.

Lemma exp_le (x y : R) : (x <= y)%R -> (exp x <= exp y)%R.
Proof.
  intros [H | ->]; [apply Rlt_le; now apply exp_increasing | lra].
Qed.

(** X16.  A temperature above 1 flattens and a temperature below 1 sharpens:
    of two classes, the ratio of the greater to the smaller entry, the 1e-9
    counted in, does not grow at a temperature of 1 or more and does not
    shrink at a temperature of 1 or less. *)
Theorem temperature_flattens_or_sharpens
        (temp : R) (output v : list R) (i j : nat) :
  (0 < temp)%R -> temp <> 1%R ->
  Forall (fun x => 0 <= x)%R output ->
  i < length output -> j < length output ->
  (NP.get output j <= NP.get output i)%R ->
  Predict.temperature_stage temp output = Ok v ->
  ((1 <= temp)%R ->
   (NP.get v i * (NP.get output j + 1e-9)
    <= NP.get v j * (NP.get output i + 1e-9))%R) /\
  ((temp <= 1)%R ->
   (NP.get v j * (NP.get output i + 1e-9)
    <= NP.get v i * (NP.get output j + 1e-9))%R).
Proof.
  intros Ht H1 Hall Hi Hj Hle Hv.
  rewrite temperature_applied in Hv; [|exact H1 | lra | exact Hall].
  injection Hv as <-.
  set (e := map (fun x => exp (ln (x + 1e-9) / temp))%R output).
  assert (0 < NP.sum e)%R as Hpos.
  { subst e. destruct output as [|x output]; [simpl in Hi; lia|].
    pose proof (sum_map_exp_pos (ln (x + 1e-9) / temp)
                  (map (fun x => ln (x + 1e-9) / temp)%R output)) as Hp.
    simpl in Hp. rewrite map_map in Hp. exact Hp. }
  pose proof (get_Forall _ output i Hall Hi) as Hxi.
  pose proof (get_Forall _ output j Hall Hj) as Hxj.
  simpl in Hxi, Hxj.
  set (ai := (NP.get output i + 1e-9)%R) in *.
  set (aj := (NP.get output j + 1e-9)%R) in *.
  assert (0 < ai)%R as Hai by (subst ai; lra).
  assert (0 < aj)%R as Haj by (subst aj; lra).
  assert (ln aj <= ln ai)%R as Hln.
  { destruct (Req_dec_T aj ai) as [-> | Hne]; [lra|].
    apply Rlt_le, ln_increasing; [exact Haj | subst ai aj; lra]. }
  assert (forall k, k < length output ->
                    NP.get (map (fun x => (x / NP.sum e)%R) e) k
                    = (exp (ln (NP.get output k + 1e-9) / temp) / NP.sum e)%R)
    as Hget.
  { intros k Hk. rewrite get_map_div. f_equal. subst e.
    now rewrite (get_map (fun x => exp (ln (x + 1e-9) / temp))%R). }
  rewrite (Hget i Hi), (Hget j Hj). fold ai aj.
  pose proof (Rinv_0_lt_compat _ Hpos) as Hinv.
  pose proof (Rinv_0_lt_compat _ Ht) as Hit.
  assert (forall p q : R, (p <= q)%R ->
            (exp p / NP.sum e <= exp q / NP.sum e)%R) as Hmono.
  { intros p q Hpq. apply Rmult_le_compat_r; [lra | now apply exp_le]. }
  assert (forall p a' : R, (0 < a')%R ->
            (exp p / NP.sum e * a' = exp (p + ln a') / NP.sum e)%R) as Hmul.
  { intros p a' Ha'. rewrite exp_plus, exp_ln by exact Ha'. field. lra. }
  rewrite !Hmul by assumption.
  split; intros Hcmp; apply Hmono; unfold Rdiv.
  - assert (/ temp <= 1)%R.
    { rewrite <- Rinv_1. apply Rinv_le_contravar; lra. }
    nra.
  - assert (1 <= / temp)%R.
    { rewrite <- Rinv_1 at 1. apply Rinv_le_contravar; lra. }
    nra.
Qed.

Lemma temperature_flattens_or_sharpens_witness :
  exists v,
    Predict.temperature_stage 2 [3/4; 1/4]%R = Ok v /\
    (NP.get v 0 * (NP.get [3/4; 1/4] 1 + 1e-9)
     <= NP.get v 1 * (NP.get [3/4; 1/4] 0 + 1e-9))%R.
Proof.
  destruct (temperature_gives_positive_ok 2 [3/4; 1/4]%R) as [v Hv];
    [lra | lra | repeat constructor; lra |].
  exists v. split; [exact Hv|].
  apply (temperature_flattens_or_sharpens 2 [3/4; 1/4]%R v 0 1).
  - lra.
  - lra.
  - repeat constructor; lra.
  - simpl. lia.
  - simpl. lia.
  - unfold NP.get. simpl. lra.
  - exact Hv.
  - lra.
Defined.

(** ** The boost stage *)






Lemma boost_loop_lower_labels (pl : Py.str) (b : R) :
  forall classes classes' i output,
    map Py.lower classes = map Py.lower classes' ->
    Predict.boost_loop pl b i classes output
    = Predict.boost_loop pl b i classes' output.
Proof.
  induction classes as [|c classes IH]; intros [|c' classes'] i output H;
    try discriminate; [reflexivity|].
  simpl in H. injection H as Hc Hrest. simpl. rewrite Hc.
  destruct (Py.contains pl (Py.lower c')).
  - destruct (nth_error output i); [now apply IH | reflexivity].
  - now apply IH.
Qed.

(** X19.  The boost does not depend on letter case (A to Z), in the
    preferred text or in the labels. *)
Theorem boost_ignores_letter_case
        (p q : Py.str) (b : R) (classes classes' : list Py.str)
        (output : list R) :
  Py.lower p = Py.lower q ->
  map Py.lower classes = map Py.lower classes' ->
  Predict.boost_stage (Some p) b classes output
  = Predict.boost_stage (Some q) b classes' output.
Proof.
  intros Hp Hc. unfold Predict.boost_stage.
  destruct p as [|c p], q as [|d q]; try discriminate; [reflexivity|].
  rewrite Hp. now apply boost_loop_lower_labels.
Qed.

Lemma boost_ignores_letter_case_witness :
  Predict.boost_stage (Some (Py.lit "Kalanchoe")) (1/4)
    [Py.lit "Kalanchoe blossfeldiana"; Py.lit "Fern"] [1/2; 1/2]%R
  = Predict.boost_stage (Some (Py.lit "kalanchoe")) (1/4)
      [Py.lit "kalanchoe BLOSSFELDIANA"; Py.lit "fern"] [1/2; 1/2]%R.
Proof.
  apply (boost_ignores_letter_case
           (Py.lit "Kalanchoe") (Py.lit "kalanchoe") (1/4)
           [Py.lit "Kalanchoe blossfeldiana"; Py.lit "Fern"]
           [Py.lit "kalanchoe BLOSSFELDIANA"; Py.lit "fern"] [1/2; 1/2]%R).
  - reflexivity.
  - reflexivity.
Defined.







(** ** Inference and the predictions *)

(** X22.  The script reads the input size off the second dimension the
    model declares: a declared shape of fewer than two dimensions raises
    IndexError; otherwise every input dtype other than uint8 and float32
    raises the unsupported-dtype error, whatever the declared shape, the
    labels and the image, and nothing is handed to the interpreter. *)
Theorem script_rejects_before_inference
        (ext : Externals) (a : Predict.args) (classes : list Py.str)
        (m : Interpreter) (img : Image) :
  (length (input_shape m) < 2 ->
   Predict.main a classes m img = Raise IndexError) /\
  (2 <= length (input_shape m) ->
   input_dtype m <> uint8 -> input_dtype m <> float32 ->
   Predict.load_input a m img = Raise UnsupportedDtype /\
   Predict.main a classes m img = Raise UnsupportedDtype).
Proof.
  split.
  - intros H. unfold Predict.main, Predict.infer, Predict.load_input.
    replace (nth_error (input_shape m) 1) with (@None nat); [reflexivity|].
    symmetry. apply nth_error_None. lia.
  - intros H H8 H32.
    destruct (nth_error (input_shape m) 1) as [size|] eqn:E.
    + pose proof (script_unsupported a m img size H8 H32 E) as Hl.
      split; [exact Hl|]. unfold Predict.main, Predict.infer. now rewrite Hl.
    + apply nth_error_None in E. lia.
Qed.

Lemma script_rejects_before_inference_witness :
  Predict.main (ext := nearest_neighbour) (Predict.mkArgs None (1/4) 1 1)
    [Py.lit "rose"] (mkInterpreter [4] uint8 (fun _ => [1%R]))
    (mkImage 1 1 [0; 0; 0]%N) = Raise IndexError /\
  Predict.load_input (ext := nearest_neighbour) (Predict.mkArgs None (1/4) 1 1)
    (mkInterpreter [1; 2; 2; 3] float16 (fun _ => [1%R]))
    (mkImage 1 1 [0; 0; 0]%N) = Raise UnsupportedDtype /\
  Predict.main (ext := nearest_neighbour) (Predict.mkArgs None (1/4) 1 1)
    [Py.lit "rose"] (mkInterpreter [1; 2; 2; 3] float16 (fun _ => [1%R]))
    (mkImage 1 1 [0; 0; 0]%N) = Raise UnsupportedDtype.
Proof.
  split.
  - apply (script_rejects_before_inference nearest_neighbour
             (Predict.mkArgs None (1/4) 1 1) [Py.lit "rose"]
             (mkInterpreter [4] uint8 (fun _ => [1%R]))
             (mkImage 1 1 [0; 0; 0]%N)).
    simpl. lia.
  - apply (script_rejects_before_inference nearest_neighbour
             (Predict.mkArgs None (1/4) 1 1) [Py.lit "rose"]
             (mkInterpreter [1; 2; 2; 3] float16 (fun _ => [1%R]))
             (mkImage 1 1 [0; 0; 0]%N)).
    + simpl. lia.
    + discriminate.
    + discriminate.
Defined.

(** X23.  In the bot every input dtype other than uint8 goes down the float
    branch, so a model whose input is neither uint8 nor float32 is refused
    by the interpreter, which is handed a float32 tensor: the type error of
    set_tensor, whatever the declared shape, the labels and the photo. *)
Theorem bot_fails_in_set_tensor
        (ext : Externals) (classes : list Py.str) (m : Interpreter)
        (img : Image) :
  input_dtype m <> uint8 -> input_dtype m <> float32 ->
  dt (PlantBot.input_tensor m img) = float32 /\
  PlantBot.classify_image classes m img = Raise TensorTypeMismatch.
Proof.
  intros H8 H32.
  assert (dt (PlantBot.input_tensor m img) = float32) as Hd.
  { rewrite bot_tensor_dtype.
    destruct (dtype_eq_dec (input_dtype m) uint8); [contradiction | reflexivity]. }
  split; [exact Hd|].
  unfold PlantBot.classify_image, PlantBot.infer.
  rewrite run_type_mismatch; [reflexivity|]. rewrite Hd. congruence.
Qed.

Lemma bot_fails_in_set_tensor_witness :
  dt (PlantBot.input_tensor (ext := nearest_neighbour)
        (mkInterpreter [1; 224; 224; 3] float16 (fun _ => [1%R]))
        (mkImage 1 1 [0; 0; 0]%N)) = float32 /\
  PlantBot.classify_image (ext := nearest_neighbour) [Py.lit "rose"]
    (mkInterpreter [1; 224; 224; 3] float16 (fun _ => [1%R]))
    (mkImage 1 1 [0; 0; 0]%N) = Raise TensorTypeMismatch.
Proof.
  apply (bot_fails_in_set_tensor nearest_neighbour [Py.lit "rose"]
           (mkInterpreter [1; 224; 224; 3] float16 (fun _ => [1%R]))
           (mkImage 1 1 [0; 0; 0]%N)).
  - discriminate.
  - discriminate.
Defined.

Lemma labelled_ok (classes : list Py.str) (out : list R) (i : nat) :
  i < length classes ->
  labelled classes out i = Ok (nth i classes [], NP.get out i).
Proof.
  intros Hi. unfold labelled.
  destruct (nth_error classes i) as [cls|] eqn:E.
  - now rewrite (nth_error_nth classes i [] E).
  - apply nth_error_None in E. lia.
Qed.

Lemma labelled_all (classes : list Py.str) (out : list R) (l : list nat) :
  (forall i, In i l -> i < length classes) ->
  mapM (labelled classes out) l
  = Ok (map (fun i => (nth i classes [], NP.get out i)) l).
Proof.
  intros H. apply mapM_ok. intros i Hi. apply labelled_ok. now apply H.
Qed.


(** The labelled top-K list: one pair per class listed, greatest value
    first, the first pair holding the greatest value of the array. *)
Lemma labelled_top_k (k : nat) (classes : list Py.str) (out : list R) :
  length out <= length classes ->
  exists preds,
    mapM (labelled classes out) (NP.top_k k out) = Ok preds /\
    preds = map (fun i => (nth i classes [], NP.get out i)) (NP.top_k k out) /\
    length preds = Nat.min k (length out) /\
    (forall x y d, x < y < length preds ->
                   (snd (nth y preds d) <= snd (nth x preds d))%R) /\
    (forall j d, 1 <= k -> j < length out ->
                 (NP.get out j <= snd (nth 0 preds d))%R).
Proof.
  intros Hlen.
  assert (forall i, In i (NP.top_k k out) -> i < length out) as Hin.
  { intros i Hi. apply In_ranking. now apply In_firstn_ranking with k. }
  assert (length (NP.top_k k out) = Nat.min k (length out)) as Hl.
  { rewrite top_k_ranking, length_firstn, ranking_rev, length_rev.
    now rewrite length_argsort. }
  assert (StronglySorted (fun i j => key_lt out j i) (NP.top_k k out)) as Hs.
  { rewrite top_k_ranking. apply StronglySorted_firstn, ranking_sorted. }
  eexists. split; [|split; [reflexivity|split; [|split]]].
  - apply labelled_all. intros i Hi. specialize (Hin i Hi). lia.
  - now rewrite length_map.
  - rewrite length_map. intros x y d Hxy.
    rewrite !(nth_indep _ d (nth 0 classes [], NP.get out 0))
      by (rewrite length_map; lia).
    rewrite !(map_nth (fun i => (nth i classes [], NP.get out i))). simpl.
    destruct (StronglySorted_nth _ _ 0 Hs x y Hxy) as [H | [H _]]; lra.
  - intros j d Hk Hj.
    destruct (ranking_nonempty out) as [h [rest E]].
    { intros ->. simpl in Hj. lia. }
    destruct (ranking_head_greatest out h rest E) as [Hh Hmax].
    assert (NP.top_k k out = h :: firstn (pred k) rest) as Et.
    { rewrite top_k_ranking, E. destruct k; [lia | reflexivity]. }
    rewrite Et. simpl.
    destruct (Nat.eq_dec j h) as [-> | Hne]; [lra|].
    destruct (Hmax j Hj Hne) as [H | [H _]]; lra.
Qed.







(** ** The /scan command *)



(** X28.  When the camera returns 0 and the classification succeeds on an
    output that is not empty, [scan] sends the photo, with a caption of one
    line per prediction that ends with the escaped label of a class whose
    value is the greatest of the output. *)
Theorem scan_names_the_greatest_class
        (ext : Externals) (pr : PlantBot.Printing) (classes : list Py.str)
        (m : Interpreter) (photo : Image) :
  input_dtype m = uint8 \/ input_dtype m = float32 ->
  input_shape m = [1; 224; 224; 3] ->
  let out := forward m (data (PlantBot.input_tensor m photo)) in
  out <> [] ->
  length out <= length classes ->
  exists preds top,
    PlantBot.classify_image classes m photo = Ok preds /\
    PlantBot.scan classes m 0 photo
    = [PlantBot.Text PlantBot.CAPTURING;
       PlantBot.Photo
         (PlantBot.TOP3 ++ concat (map PlantBot.caption_line preds)
            ++ PlantBot.MOST_LIKELY ++ PlantBot.esc (nth top classes []))] /\
    length preds = Nat.min 3 (length out) /\
    top < length out /\
    (forall j, j < length out -> (NP.get out j <= NP.get out top)%R).
Proof.
  intros Hd Hs out Hne Hlen.
  destruct (ranking_nonempty out Hne) as [h [rest E]].
  destruct (ranking_head_greatest out h rest E) as [Hh Hmax].
  assert (NP.top_k 3 out = h :: firstn 2 rest) as Et
      by (rewrite top_k_ranking, E; reflexivity).
  destruct (labelled_top_k 3 classes out Hlen)
    as [preds [Hp [Hmap [Hl _]]]].
  assert (PlantBot.classify_image classes m photo = Ok preds) as Hc.
  { unfold PlantBot.classify_image, PlantBot.infer. rewrite run_ok.
    - cbn [bind]. exact Hp.
    - now apply bot_tensor_supported.
    - rewrite bot_tensor_shape. now symmetry. }
  exists preds, h. split; [exact Hc|]. split; [|split; [exact Hl|split]].
  - unfold PlantBot.scan. cbn [Z.eqb]. rewrite Hc. cbn [bind].
    rewrite Hmap, Et. cbn [map]. unfold PlantBot.caption.
    rewrite <- !app_assoc. reflexivity.
  - exact Hh.
  - intros j Hj. destruct (Nat.eq_dec j h) as [-> | Hjh]; [lra|].
    destruct (Hmax j Hj Hjh) as [H | [H _]]; lra.
Qed.

Lemma scan_names_the_greatest_class_witness :
  let pr := PlantBot.Build_Printing (fun _ => Py.lit "0.00")
                                    (fun _ => Py.lit "error") in
  let m := mkInterpreter [1; 224; 224; 3] uint8 (fun _ => [1/4; 3/4]%R) in
  let classes := [Py.lit "rose"; Py.lit "aloe_vera"] in
  let out := [1/4; 3/4]%R in
  exists preds top,
    PlantBot.classify_image (ext := nearest_neighbour) classes m
                            (mkImage 1 1 [0; 0; 0]%N) = Ok preds /\
    PlantBot.scan (ext := nearest_neighbour) (pr := pr) classes m 0
                  (mkImage 1 1 [0; 0; 0]%N)
    = [PlantBot.Text PlantBot.CAPTURING;
       PlantBot.Photo
         (PlantBot.TOP3 ++ concat (map PlantBot.caption_line preds)
            ++ PlantBot.MOST_LIKELY ++ PlantBot.esc (nth top classes []))] /\
    length preds = 2 /\
    top < 2 /\
    (forall j, j < 2 -> (NP.get out j <= NP.get out top)%R).
Proof.
  intros pr m classes out.
  apply (scan_names_the_greatest_class nearest_neighbour pr classes m
                                       (mkImage 1 1 [0; 0; 0]%N)).
  - left. reflexivity.
  - reflexivity.
  - discriminate.
  - simpl. lia.
Defined.
